(** * Evaluation of a pretrained adaptive VarNet: metrics and mask entropy

    A shallow embedding of
    [fastmri_examples/adaptive_varnet/eval_pretrained_adaptive_varnet.py]:
    the [entropy] function, the checkpoint loading with its fallback
    ([load_model] and the [try]/[except] of [cli_main]), the evaluation
    loop of [cli_main] and its finalisation into the printed dictionary.

    Left out, as they do not bear on the report: argument parsing
    ([build_args], [str2bool]), the construction of the mask function,
    the transform and the data module, the seeding, the moves between
    devices and the progress messages.  The data module only shows as
    its two data loaders.

    Numbers.  Tensor entries are modelled as extended reals: a finite
    value carries an exact real number, and the three IEEE special
    values (plus infinity, minus infinity, not-a-number) are kept,
    because [entropy] relies on them: [log 0] is minus infinity and
    [0 * (-inf)] is not-a-number, which is what the two masked
    assignments of [entropy] overwrite.  Rounding, overflow and signed
    zeros are not modelled: what is proved of values holds of the
    formulas in exact arithmetic.  Where rounding decides, [entropy] at
    one entry is also given on binary64 numbers ([Binary64]). *)

From Stdlib Require PrimFloat Floats.
From Stdlib Require Import Ascii String Reals Lra Lia List ZArith Bool Arith.
Import Init.Datatypes.
Import ListNotations.

Set Implicit Arguments.

(** ** Scalars: reals extended with the IEEE special values *)

Module Scalar.

Local Open Scope R_scope.

Inductive scalar : Type :=
| Finite (r : R)
| PInf
| NInf
| NaN.

Definition neg (x : scalar) : scalar :=
  match x with
  | Finite r => Finite (- r)
  | PInf => NInf
  | NInf => PInf
  | NaN => NaN
  end.

Definition add (x y : scalar) : scalar :=
  match x, y with
  | NaN, _ | _, NaN => NaN
  | Finite a, Finite b => Finite (a + b)
  | PInf, NInf | NInf, PInf => NaN
  | PInf, _ | _, PInf => PInf
  | NInf, _ | _, NInf => NInf
  end.

Definition sub (x y : scalar) : scalar := add x (neg y).

(** [r * inf] for a finite [r] and an infinity [inf]: the sign of [r]
    decides, and [0 * inf] is not-a-number. *)
Definition scale_inf (r : R) (inf : scalar) : scalar :=
  if Rlt_dec 0 r then inf
  else if Rlt_dec r 0 then neg inf
  else NaN.

Definition mul (x y : scalar) : scalar :=
  match x, y with
  | NaN, _ | _, NaN => NaN
  | Finite a, Finite b => Finite (a * b)
  | Finite a, inf => scale_inf a inf
  | inf, Finite b => scale_inf b inf
  | PInf, PInf | NInf, NInf => PInf
  | PInf, NInf | NInf, PInf => NInf
  end.

(** Natural logarithm as [torch.log] has it. *)
Definition log (x : scalar) : scalar :=
  match x with
  | Finite r =>
      if Rlt_dec 0 r then Finite (ln r)
      else if Req_dec_T r 0 then NInf
      else NaN
  | PInf => PInf
  | NInf => NaN
  | NaN => NaN
  end.

(** The comparison [==]: not-a-number is equal to nothing. *)
Definition eqb (x y : scalar) : bool :=
  match x, y with
  | Finite a, Finite b => if Req_dec_T a b then true else false
  | PInf, PInf => true
  | NInf, NInf => true
  | _, _ => false
  end.

(** Division of an accumulated sum by an element count. *)
Definition div_count (x : scalar) (n : nat) : scalar :=
  match x with
  | Finite r =>
      match n with
      | O => if Req_dec_T r 0 then NaN else scale_inf r PInf
      | S _ => Finite (r / INR n)
      end
  | other => other
  end.

Definition sum (l : list scalar) : scalar :=
  fold_left add l (Finite 0).

(** [mean] of a flat sequence of entries; of no entry it is [0 / 0]. *)
Definition mean (l : list scalar) : scalar :=
  div_count (sum l) (length l).

Definition is_finite (x : scalar) : Prop :=
  match x with Finite _ => True | _ => False end.

(** [numpy.isclose a b] with its default tolerances:
    [|a - b| <= atol + rtol * |b|]; equal infinities are close,
    not-a-number is close to nothing. *)
Definition rtol : R := 1 / 100000.
Definition atol : R := 1 / 100000000.

Definition isclose (a b : scalar) : bool :=
  match a, b with
  | Finite x, Finite y =>
      if Rle_dec (Rabs (x - y)) (atol + rtol * Rabs y) then true else false
  | PInf, PInf => true
  | NInf, NInf => true
  | _, _ => false
  end.

End Scalar.

Import Scalar.

(** ** Exceptions and results *)

(** The two assertions of [cli_main]. *)
Inductive assertion : Type :=
| MultiplePolicies
    (* "Found more than one prob mask... Multiple policies in this
       checkpoint? Not currently supported." *)
| BudgetMismatch (budget : Z) (row_sum : scalar).
    (* "Sum of a prob mask should match budget ... but it was ..." *)

(** Exceptions by class, as far as the code tells them apart. *)
Inductive exn : Type :=
| RuntimeError
| AssertionError (a : assertion)
| ValueError
| IndexError
| OtherException (cls : string).

Inductive result (A : Type) : Type :=
| Ok (a : A)
| Raise (e : exn).

Arguments Ok {A} a.
Arguments Raise {A} e.

Definition bind {A B : Type} (r : result A) (k : A -> result B) : result B :=
  match r with
  | Ok a => k a
  | Raise e => Raise e
  end.

Notation "x <- r ;; k" := (bind r (fun x => k))
  (at level 61, r at next level, right associativity).

Definition is_ok {A : Type} (r : result A) : bool :=
  match r with Ok _ => true | Raise _ => false end.

(** ** Tensors

    A tensor is its shape and its entries in row-major order, as a
    contiguous [torch] tensor stores them.  The three ranks that occur
    in [cli_main] are kept apart by type. *)

Module Tensor.

(** Rank 2: [rows x cols]. *)
Record Matrix : Type := mkMatrix {
  rows : nat;
  cols : nat;
  mdata : list scalar
}.

(** Rank 4: the un-reduced output of the SSIM loss, [b x c x h x w]. *)
Record Tensor4 : Type := mkTensor4 {
  dim4_0 : nat;
  dim4_1 : nat;
  dim4_2 : nat;
  dim4_3 : nat;
  data4 : list scalar
}.

(** Rank 5: a probability mask of the policy, [b x 1 x 1 x L x 1]. *)
Record Tensor5 : Type := mkTensor5 {
  dim5_0 : nat;
  dim5_1 : nat;
  dim5_2 : nat;
  dim5_3 : nat;
  dim5_4 : nat;
  data5 : list scalar
}.

Definition wf (m : Matrix) : Prop :=
  length (mdata m) = (rows m * cols m)%nat.

(** [m[r, c]] *)
Definition mget (m : Matrix) (r c : nat) : scalar :=
  nth (r * cols m + c) (mdata m) NaN.

(** [m[r]], one row. *)
Definition mrow (m : Matrix) (r : nat) : list scalar :=
  map (mget m r) (seq 0 (cols m)).

(** [m[:, c]], one column. *)
Definition mcol (m : Matrix) (c : nat) : list scalar :=
  map (fun r => mget m r c) (seq 0 (rows m)).

Definition get4 (t : Tensor4) (b c h w : nat) : scalar :=
  nth (((b * dim4_1 t + c) * dim4_2 t + h) * dim4_3 t + w) (data4 t) NaN.

Definition get5 (t : Tensor5) (b i j l k : nat) : scalar :=
  nth ((((b * dim5_1 t + i) * dim5_2 t + j) * dim5_3 t + l) * dim5_4 t + k)
      (data5 t) NaN.

(** Element-wise operations on tensors of one shape. *)
Definition map_entries (f : scalar -> scalar) (m : Matrix) : Matrix :=
  mkMatrix (rows m) (cols m) (map f (mdata m)).

Fixpoint zip_with (f : scalar -> scalar -> scalar) (xs ys : list scalar)
  : list scalar :=
  match xs, ys with
  | x :: xs', y :: ys' => f x y :: zip_with f xs' ys'
  | _, _ => []
  end.

Definition map2_entries (f : scalar -> scalar -> scalar) (a b : Matrix)
  : Matrix :=
  mkMatrix (rows a) (cols a) (zip_with f (mdata a) (mdata b)).

Definition tlog : Matrix -> Matrix := map_entries log.
Definition tneg : Matrix -> Matrix := map_entries neg.
Definition tadd : Matrix -> Matrix -> Matrix := map2_entries add.
Definition tmul : Matrix -> Matrix -> Matrix := map2_entries mul.

(** [s - m] for a scalar [s]. *)
Definition rsub (s : scalar) : Matrix -> Matrix := map_entries (sub s).

(** [m - s] for a scalar [s]. *)
Definition subs (m : Matrix) (s : scalar) : Matrix :=
  map_entries (fun x => sub x s) m.

(** The boolean mask [m == s]. *)
Definition eq_scalar (m : Matrix) (s : scalar) : list bool :=
  map (fun x => eqb x s) (mdata m).

(** [m[mask] = v] *)
Fixpoint assign_where (xs : list scalar) (mask : list bool) (v : scalar)
  : list scalar :=
  match xs, mask with
  | x :: xs', b :: mask' =>
      (if b then v else x) :: assign_where xs' mask' v
  | _, _ => xs
  end.

Definition masked_assign (m : Matrix) (mask : list bool) (v : scalar)
  : Matrix :=
  mkMatrix (rows m) (cols m) (assign_where (mdata m) mask v).

(** [t.mean(dim=(1, 2))] of a rank-4 tensor: [b x c x h x w -> b x w]. *)
Definition mean_dims12 (t : Tensor4) : Matrix :=
  mkMatrix (dim4_0 t) (dim4_3 t)
    (flat_map
       (fun b =>
          map (fun w =>
                 mean (flat_map
                         (fun c => map (fun h => get4 t b c h w)
                                       (seq 0 (dim4_2 t)))
                         (seq 0 (dim4_1 t))))
              (seq 0 (dim4_3 t)))
       (seq 0 (dim4_0 t))).

(** [t[:, 0, 0, :, 0]]: [b x d1 x d2 x L x d4 -> b x L]; index 0 must
    exist along the three dropped dimensions. *)
Definition index_00_0 (t : Tensor5) : result Matrix :=
  if (Nat.eqb (dim5_1 t) 0 || Nat.eqb (dim5_2 t) 0 || Nat.eqb (dim5_4 t) 0)%bool
  then Raise IndexError
  else
    Ok (mkMatrix (dim5_0 t) (dim5_3 t)
          (flat_map
             (fun b => map (fun l => get5 t b 0 0 l 0) (seq 0 (dim5_3 t)))
             (seq 0 (dim5_0 t)))).

(** [m[0]] *)
Definition first_row (m : Matrix) : result (list scalar) :=
  if Nat.eqb (rows m) 0 then Raise IndexError else Ok (mrow m 0).

(** [torch.cat(ts, dim=0)]: the list must not be empty and the shapes
    must agree outside dimension 0. *)
Definition cat (ts : list Matrix) : result Matrix :=
  match ts with
  | [] => Raise RuntimeError
  | t0 :: _ =>
      if forallb (fun t => Nat.eqb (cols t) (cols t0)) ts
      then Ok (mkMatrix (list_sum (map rows ts)) (cols t0)
                 (concat (map mdata ts)))
      else Raise RuntimeError
  end.

(** [m.mean()] over all entries. *)
Definition mean_all (m : Matrix) : scalar := mean (mdata m).

(** [m.mean(dim=0, keepdim=True)]: [N x L -> 1 x L]. *)
Definition mean_dim0_keepdim (m : Matrix) : Matrix :=
  mkMatrix 1 (cols m) (map (fun l => mean (mcol m l)) (seq 0 (cols m))).

(** [m.sum(dim=1)]: [N x L -> N]. *)
Definition sum_dim1 (m : Matrix) : list scalar :=
  map (fun n => sum (mrow m n)) (seq 0 (rows m)).

(** [.item()] of a tensor: it must hold exactly one entry. *)
Definition item (v : list scalar) : result scalar :=
  match v with
  | [x] => Ok x
  | _ => Raise RuntimeError
  end.

End Tensor.

Import Tensor.

(** ** [entropy] *)

Definition entropy (prob_mask : Matrix) : Matrix :=
  let ent :=
    tneg (tadd (tmul prob_mask (tlog prob_mask))
               (tmul (rsub (Finite 1) prob_mask)
                     (tlog (rsub (Finite 1) prob_mask)))) in
  let ent := masked_assign ent (eq_scalar prob_mask (Finite 0)) (Finite 0) in
  let ent := masked_assign ent (eq_scalar prob_mask (Finite 1)) (Finite 0) in
  ent.

(** The first line of [entropy] at one entry, before the two masked
    assignments. *)
Definition entropy_unmasked (p : scalar) : scalar :=
  neg (add (mul p (log p))
           (mul (sub (Finite 1) p) (log (sub (Finite 1) p)))).

(** [entropy] at one entry. *)
Definition entropy_entry (p : scalar) : scalar :=
  let ent := entropy_unmasked p in
  let ent := if eqb p (Finite 0) then Finite 0 else ent in
  if eqb p (Finite 1) then Finite 0 else ent.

(** The binary entropy of the spec on real numbers,
    [H(p) = -(p ln p + (1-p) ln (1-p))]. *)
Definition H (p : R) : R := (- (p * ln p + (1 - p) * ln (1 - p)))%R.

(** A probability strictly between 0 and 1. *)
Definition open_unit (x : scalar) : Prop :=
  exists p : R, x = Finite p /\ (0 < p < 1)%R.

(** ** Python dictionaries with string keys, in insertion order *)

Module Dict.

Section WithValue.
Variable V : Type.

Definition dict : Type := list (string * V).

Fixpoint get (k : string) (d : dict) : option V :=
  match d with
  | [] => None
  | (k', v) :: d' => if String.eqb k k' then Some v else get k d'
  end.

(** [k in d] *)
Definition mem (k : string) (d : dict) : bool :=
  match get k d with Some _ => true | None => false end.

(** [d[k] = v] *)
Fixpoint set (k : string) (v : V) (d : dict) : dict :=
  match d with
  | [] => [(k, v)]
  | (k', v') :: d' =>
      if String.eqb k k' then (k', v) :: d' else (k', v') :: set k v d'
  end.

(** [d.update(e)] *)
Definition update (d e : dict) : dict :=
  fold_left (fun acc kv => set (fst kv) (snd kv) acc) e d.

Definition keys (d : dict) : list string := map fst d.

End WithValue.

End Dict.

(** ** The evaluation script *)

Inductive module_class : Type :=
| AdaptiveVarNetModule
| VarNetModule.

(** The command-line arguments that [cli_main] itself reads. *)
Record Args : Type := mkArgs {
  load_checkpoint : string;
  num_batches : option Z;
  data_mode : string
}.

Section Script.

(** *** Collaborators

    What the script calls and does not define: images and k-space
    tensors are opaque, the metric functions, the SSIM loss, the
    checkpoint reader and the two module constructors are taken as
    they are. *)

Variable Image : Type.
Variable Kspace : Type.
Variable HyperParameters : Type.
Variable StateDict : Type.

(** [evaluate.psnr(gt, rec, maxval=maxval)] and [evaluate.nmse(gt, rec)]. *)
Variable psnr : Image -> Image -> scalar -> scalar.
Variable nmse : Image -> Image -> scalar.

(** [fastmri.SSIMLoss()(X, Y, data_range=..., reduced=False)], given the
    images of the batch. *)
Variable ssim_loss : list Image -> list Image -> list scalar -> Tensor4.

Record Batch : Type := mkBatch {
  kspace : Kspace;
  masked_kspace : Kspace;
  mask : Kspace;
  target : list Image;
  max_value : list scalar
}.

(** The second output of the model: a dictionary; under ["prob_masks"]
    it holds a list of probability-mask tensors. *)
Definition extra_outputs : Type := Dict.dict (list Tensor5).

Record Model : Type := mkModel {
  budget : Z;
  forward : Kspace -> Kspace -> Kspace -> list Image * extra_outputs
}.

Record Checkpoint : Type := mkCheckpoint {
  hyper_parameters : HyperParameters;
  state_dict : StateDict
}.

(** [torch.load], the constructor of a module class applied to the stored
    hyper-parameters, and [module.load_state_dict]. *)
Variable torch_load : string -> result Checkpoint.
Variable construct : module_class -> HyperParameters -> result Model.
Variable load_state_dict : Model -> StateDict -> result Model.

(** The two data loaders of the data module. *)
Variable val_dataloader : list Batch.
Variable train_dataloader : list Batch.

(** *** [load_model] *)

Definition load_model (module_class0 : module_class) (fname : string)
  : result Model :=
  checkpoint <- torch_load fname ;;
  module <- construct module_class0 (hyper_parameters checkpoint) ;;
  module <- load_state_dict module (state_dict checkpoint) ;;
  Ok module.

(** A weight/class mismatch, in the words of the comment in
    [load_model]: the checkpoint is read, the module is built, and
    [load_state_dict] errors because the stored keys do not match the
    weights of the module. *)
Definition weight_class_mismatch (module_class0 : module_class)
    (fname : string) : Prop :=
  exists checkpoint module,
    torch_load fname = Ok checkpoint /\
    construct module_class0 (hyper_parameters checkpoint) = Ok module /\
    load_state_dict module (state_dict checkpoint) = Raise RuntimeError.

(** *** The [try]/[except RuntimeError] of [cli_main]

    Next to its result the block yields the classes [load_model] was
    called with, in order. *)
Definition load_with_fallback (args : Args)
  : list module_class * result Model :=
  match load_model AdaptiveVarNetModule (load_checkpoint args) with
  | Ok model => ([AdaptiveVarNetModule], Ok model)
  | Raise RuntimeError =>
      ([AdaptiveVarNetModule; VarNetModule],
       load_model VarNetModule (load_checkpoint args))
  | Raise e => ([AdaptiveVarNetModule], Raise e)
  end.

(** *** The evaluation loop *)

Record State : Type := mkState {
  all_prob_masks : list Matrix;
  all_ssims : list Matrix;
  all_psnrs : list scalar;
  all_nmses : list scalar
}.

Definition init_state : State := mkState [] [] [] [].

(** [zip(target, output, max_value)] *)
Fixpoint zip3 (gts recs : list Image) (maxvals : list scalar)
  : list (Image * Image * scalar) :=
  match gts, recs, maxvals with
  | gt :: gts', rec :: recs', maxval :: maxvals' =>
      (gt, rec, maxval) :: zip3 gts' recs' maxvals'
  | _, _, _ => []
  end.

(** The SSIM tensor of one batch:
    [1 - ssim_loss(...).mean(dim=(1, 2))]. *)
Definition batch_ssim (batch : Batch) (output : list Image) : Matrix :=
  rsub (Finite 1)
       (mean_dims12 (ssim_loss output (target batch) (max_value batch))).

(** The per-image metrics of one batch, in the order of the inner loop. *)
Definition batch_psnrs (batch : Batch) (output : list Image) : list scalar :=
  map (fun '(gt, rec, maxval) => psnr gt rec maxval)
      (zip3 (target batch) output (max_value batch)).

Definition batch_nmses (batch : Batch) (output : list Image) : list scalar :=
  map (fun '(gt, rec, _) => nmse gt rec)
      (zip3 (target batch) output (max_value batch)).

(** The block under [if "prob_masks" in extra_outputs]. *)
Definition save_prob_masks (model : Model) (extra : extra_outputs)
    (masks : list Matrix) : result (list Matrix) :=
  match Dict.get "prob_masks" extra with
  | None => Ok masks
  | Some prob_masks_list =>
      if negb (Nat.eqb (length prob_masks_list) 1)
      then Raise (AssertionError MultiplePolicies)
      else
        match nth_error prob_masks_list 0 with
        | None => Raise IndexError
        | Some t =>
            batch_prob_masks <- index_00_0 t ;;
            row0 <- first_row batch_prob_masks ;;
            if isclose (sum row0) (Finite (IZR (budget model)))
            then Ok (masks ++ [batch_prob_masks])
            else Raise (AssertionError
                          (BudgetMismatch (budget model) (sum row0)))
        end
  end.

(** The body of the loop for one batch.  The calls of the model, of the
    SSIM loss and of [evaluate.psnr] and [evaluate.nmse] are taken to
    return: a run in which one of them raises ends with that error at
    that batch and is not described here.  What is said of a batch, and
    of a loop that goes through, is said of runs in which they
    return. *)
Definition step (model : Model) (batch : Batch) (st : State) : result State :=
  let '(output, extra) :=
    forward model (kspace batch) (masked_kspace batch) (mask batch) in
  let ssims := all_ssims st ++ [batch_ssim batch output] in
  let psnrs := all_psnrs st ++ batch_psnrs batch output in
  let nmses := all_nmses st ++ batch_nmses batch output in
  masks <- save_prob_masks model extra (all_prob_masks st) ;;
  Ok (mkState masks ssims psnrs nmses).

(** [i == args.num_batches] *)
Definition at_cap (i : nat) (cap : option Z) : bool :=
  match cap with
  | None => false
  | Some n => Z.eqb (Z.of_nat i) n
  end.

(** [for i, batch in enumerate(data_loader)], from index [i] on. *)
Fixpoint eval_loop (model : Model) (cap : option Z) (i : nat)
    (batches : list Batch) (st : State) : result State :=
  match batches with
  | [] => Ok st
  | batch :: rest =>
      if at_cap i cap then Ok st
      else
        st' <- step model batch st ;;
        eval_loop model cap (S i) rest st'
  end.

(** The two outputs of the model on one batch. *)
Definition output_of (model : Model) (batch : Batch) : list Image :=
  fst (forward model (kspace batch) (masked_kspace batch) (mask batch)).

Definition extra_of (model : Model) (batch : Batch) : extra_outputs :=
  snd (forward model (kspace batch) (masked_kspace batch) (mask batch)).

(** The batches the loop body runs on: those before the index that
    equals the cap. *)
Fixpoint processed (cap : option Z) (i : nat) (batches : list Batch)
  : list Batch :=
  match batches with
  | [] => []
  | batch :: rest =>
      if at_cap i cap then [] else batch :: processed cap (S i) rest
  end.

(** The loop body on a list of batches, one after the other. *)
Fixpoint run_steps (model : Model) (batches : list Batch) (st : State)
  : result State :=
  match batches with
  | [] => Ok st
  | batch :: rest => st' <- step model batch st ;; run_steps model rest st'
  end.

(** *** Finalisation *)

(** [np.array(xs)[:, None]]: one array of length 1 per collected value. *)
Definition as_column (xs : list scalar) : list (list scalar) :=
  map (fun x => [x]) xs.

(** [np.concatenate(arrays, axis=0)]: needs at least one array. *)
Definition np_concatenate (arrays : list (list scalar))
  : result (list scalar) :=
  match arrays with
  | [] => Raise ValueError
  | _ => Ok (concat arrays)
  end.

Definition Report : Type := Dict.dict scalar.

Definition finalize (st : State) : result Report :=
  psnr_array <- np_concatenate (as_column (all_psnrs st)) ;;
  nmse_array <- np_concatenate (as_column (all_nmses st)) ;;
  ssim_tensor <- cat (all_ssims st) ;;
  let return_dict : Report :=
    [ ("ssim"%string, mean_all ssim_tensor);
      ("psnr"%string, mean psnr_array);
      ("nmse"%string, mean nmse_array) ] in
  match all_prob_masks st with
  | [] => Ok return_dict
  | _ :: _ =>
      prob_mask_tensor <- cat (all_prob_masks st) ;;
      let marg_prob := mean_dim0_keepdim prob_mask_tensor in
      let marg_entropy := sum_dim1 (entropy marg_prob) in
      let avg_cond_entropy := mean (sum_dim1 (entropy prob_mask_tensor)) in
      let mut_inf := map (fun x => sub x avg_cond_entropy) marg_entropy in
      marg_ent_item <- item marg_entropy ;;
      mi_item <- item mut_inf ;;
      Ok (Dict.update return_dict
            [ ("cond_ent_ind"%string, avg_cond_entropy);
              ("marg_ent_ind"%string, marg_ent_item);
              ("mi_ind"%string, mi_item) ])
  end.

(** The three base metrics of [finalize], before the entropy keys are
    considered. *)
Definition base_report (st : State) : result Report :=
  psnr_array <- np_concatenate (as_column (all_psnrs st)) ;;
  nmse_array <- np_concatenate (as_column (all_nmses st)) ;;
  ssim_tensor <- cat (all_ssims st) ;;
  Ok [ ("ssim"%string, mean_all ssim_tensor);
       ("psnr"%string, mean psnr_array);
       ("nmse"%string, mean nmse_array) ].

(** *** [cli_main]

    Everything after the model is loaded: the loop over the chosen data
    loader and the finalisation; the result is the dictionary that is
    printed. *)
Definition data_loader (args : Args) : list Batch :=
  if String.eqb (data_mode args) "val" then val_dataloader
  else train_dataloader.

Definition evaluate (model : Model) (args : Args) : result Report :=
  st <- eval_loop model (num_batches args) 0 (data_loader args) init_state ;;
  finalize st.

Definition cli_main (args : Args) : list module_class * result Report :=
  let '(calls, loaded) := load_with_fallback args in
  (calls, model <- loaded ;; evaluate model args).

End Script.

(** ** [str2bool]

    The argument is a Python value that is a Boolean or a string.
    Strings are strings of 8-bit characters; [lower] acts on the ASCII
    letters and leaves every other character as it is.  (Python's
    [lower] also changes characters outside ASCII, but none of them has
    a lower-case form that occurs in one of the ten accepted words, so
    the outcome of [str2bool] is the same.)  [upper] is Python's
    [upper] on strings of ASCII characters only, and is used on no
    other: outside ASCII Python's [upper] can produce ASCII letters. *)

Inductive py_value : Type :=
| PyBool (b : bool)
| PyStr (s : string).

Definition lower_ascii (c : ascii) : ascii :=
  let n := nat_of_ascii c in
  if (Nat.leb 65 n && Nat.leb n 90)%bool then ascii_of_nat (n + 32) else c.

Definition upper_ascii (c : ascii) : ascii :=
  let n := nat_of_ascii c in
  if (Nat.leb 97 n && Nat.leb n 122)%bool then ascii_of_nat (n - 32) else c.

(** [s.lower()] and [s.upper()] *)
Fixpoint lower (s : string) : string :=
  match s with
  | EmptyString => EmptyString
  | String c s' => String (lower_ascii c) (lower s')
  end.

Fixpoint upper (s : string) : string :=
  match s with
  | EmptyString => EmptyString
  | String c s' => String (upper_ascii c) (upper s')
  end.

(** [s in words] for a tuple of strings. *)
Definition in_words (s : string) (words : list string) : bool :=
  existsb (String.eqb s) words.

Definition true_words : list string :=
  ["yes"; "true"; "t"; "y"; "1"]%string.

Definition false_words : list string :=
  ["no"; "false"; "f"; "n"; "0"]%string.

Definition str2bool (v : py_value) : result bool :=
  match v with
  | PyBool b => Ok b
  | PyStr s =>
      if in_words (lower s) true_words then Ok true
      else if in_words (lower s) false_words then Ok false
      else Raise ValueError
  end.

(** [str(b)] of a Python Boolean. *)
Definition py_str_of_bool (b : bool) : string :=
  if b then "True"%string else "False"%string.

(** A string of ASCII characters. *)
Definition ascii_only (s : string) : Prop :=
  Forall (fun c => nat_of_ascii c < 128) (list_ascii_of_string s).

(** ** [entropy] on binary64 numbers

    [entropy] at one entry of a [float64] tensor, with the arithmetic
    of binary64 (round to nearest, ties to even).  The logarithm of
    [torch] is a parameter: the kernel's floating-point numbers have
    none. *)

Module Binary64.

Import PrimFloat.
Local Open Scope float_scope.

Definition entropy_entry (flog : float -> float) (p : float) : float :=
  let ent := - (p * flog p + (1 - p) * flog (1 - p)) in
  let ent := if PrimFloat.eqb p 0 then 0 else ent in
  if PrimFloat.eqb p 1 then 0 else ent.

(** The binary64 number nearest to [1e-20], and the one nearest to its
    natural logarithm, [-46.051701859880914]. *)
Definition tiny : float := 0x1.79ca10c924223p-67.
Definition log_tiny : float := -0x1.7069e2aa2aa5bp+5.

End Binary64.

(** ** Notions used to state the properties of the statistics *)

(** A probability: a finite value between 0 and 1, ends included. *)
Definition unit_interval (x : scalar) : Prop :=
  exists p : R, x = Finite p /\ (0 <= p <= 1)%R.

(** The real number a finite entry carries. *)
Definition real_of (x : scalar) : R :=
  match x with
  | Finite r => r
  | _ => 0%R
  end.

(** The sum of a list of real numbers. *)
Definition Rsum (l : list R) : R := fold_right Rplus 0%R l.

(** Whether a batch carries the key ["prob_masks"], given its auxiliary
    outputs. *)
Definition has_prob_masks (extra : Dict.dict (list Tensor5)) : bool :=
  Dict.mem "prob_masks" extra.

(** ** The averaging order of the specification

    The specification describes the reported SSIM as the mean of the
    per-batch means: one mean per batch tensor, then the mean of
    these. *)
Definition mean_of_batch_means (ssims : list Matrix) : scalar :=
  mean (map mean_all ssims).

(** ** Concrete inputs

    Small tensors, batches and models on which the properties below are
    evaluated. *)

Module Examples.

Local Open Scope R_scope.

(** One mask row with a deterministic line at each end. *)
Definition row_0_half_1 : Matrix :=
  mkMatrix 1 3 [Finite 0; Finite (1 / 2); Finite 1].

(** One mask row inside the open unit interval. *)
Definition row_third_half : Matrix :=
  mkMatrix 1 2 [Finite (1 / 3); Finite (1 / 2)].

(** The stack of the three masks [1,1,0,0], [1,0,1,0], [0,1,1,0]. *)
Definition three_masks : Matrix :=
  mkMatrix 3 4 (map Finite [1; 1; 0; 0;  1; 0; 1; 0;  0; 1; 1; 0]).

(** *** A world of one-pixel images

    An image is a single real number; a batch of k-space data is the
    list of the images it reconstructs to. *)

Definition pixel_psnr (gt rec : R) (maxval : scalar) : scalar :=
  sub maxval (Finite (gt - rec)).

Definition pixel_nmse (gt rec : R) : scalar := Finite (gt - rec).

(** One loss value per image, [target - output], as a
    [b x 1 x 1 x 1] tensor. *)
Definition pixel_ssim_loss (X Y : list R) (data_range : list scalar)
  : Tensor4 :=
  mkTensor4 (length X) 1 1 1 (zip_with sub (map Finite Y) (map Finite X)).

Definition PixelBatch : Type := Batch R (list R).
Definition PixelModel : Type := Model R (list R).

(** A model without policy: it returns its input and no auxiliary
    output. *)
Definition plain_model : PixelModel :=
  mkModel 0 (fun kspace _ _ => (kspace, [])).

(** A model with a policy of budget 2: the probability mask of the
    batch, one row, is read off the sampling mask it is given. *)
Definition policy_model : PixelModel :=
  mkModel 2
    (fun kspace _ mask =>
       (kspace,
        [("prob_masks"%string,
          [mkTensor5 1 1 1 (length mask) 1 (map Finite mask)])])).

(** A model whose mask tensor has two rows per batch: the first sums to
    the budget, the second does not. *)
Definition two_row_model : PixelModel :=
  mkModel 2
    (fun kspace _ _ =>
       (kspace,
        [("prob_masks"%string,
          [mkTensor5 2 1 1 2 1 (map Finite [1; 1; 0; 0])])])).

(** A model that reports the masks of two policies. *)
Definition two_policies_model : PixelModel :=
  mkModel 2
    (fun kspace _ mask =>
       (kspace,
        [("prob_masks"%string,
          [mkTensor5 1 1 1 (length mask) 1 (map Finite mask);
           mkTensor5 1 1 1 (length mask) 1 (map Finite mask)])])).

(** Checkpoints: the stored state dictionary remembers the class it was
    saved from; a module with a policy is one with a positive budget. *)
Definition torch_load_saved (saved : module_class) (fname : string)
  : result (Checkpoint unit module_class) :=
  Ok (mkCheckpoint tt saved).

(** A checkpoint file that cannot be read. *)
Definition torch_load_unreadable (fname : string)
  : result (Checkpoint unit module_class) :=
  Raise RuntimeError.

Definition construct_from (policy plain : PixelModel) (cls : module_class)
    (hparams : unit) : result PixelModel :=
  Ok (match cls with
      | AdaptiveVarNetModule => policy
      | VarNetModule => plain
      end).

Definition weights_fit (module : PixelModel) (saved : module_class) : bool :=
  match saved with
  | AdaptiveVarNetModule => negb (Z.eqb (budget module) 0)
  | VarNetModule => Z.eqb (budget module) 0
  end.

Definition load_state_dict_checked (module : PixelModel)
    (saved : module_class) : result PixelModel :=
  if weights_fit module saved then Ok module else Raise RuntimeError.

(** [cli_main] in this world, on the validation loader [batches]. *)
Definition pixel_cli_main (saved : module_class) (policy : PixelModel)
    (batches : list PixelBatch) (args : Args)
  : list module_class * result Report :=
  cli_main pixel_psnr pixel_nmse pixel_ssim_loss
    (torch_load_saved saved) (construct_from policy plain_model)
    load_state_dict_checked batches [] args.

Definition args_val : Args := mkArgs "model.ckpt" None "val".
Definition args_cap0 : Args := mkArgs "model.ckpt" (Some 0%Z) "val".

(** Two batches of sizes 2 and 3: the first is reconstructed exactly,
    the second not at all. *)
Definition batch_of_2 : PixelBatch :=
  mkBatch [1; 1] [] [] [1; 1] [Finite 1; Finite 1].

Definition batch_of_3 : PixelBatch :=
  mkBatch [0; 0; 0] [] [] [1; 1; 1] [Finite 1; Finite 1; Finite 1].

(** One-image batches whose sampling masks are the three rows of
    [three_masks], and one whose mask sums to 1. *)
Definition batch_mask (mask : list R) : PixelBatch :=
  mkBatch [1] [] mask [1] [Finite 1].

Definition mask_batches : list PixelBatch :=
  [batch_mask [1; 1; 0; 0]; batch_mask [1; 0; 1; 0]; batch_mask [0; 1; 1; 0]].

Definition batch_off_budget : PixelBatch := batch_mask [1; 0; 0; 0].

(** Models for the edge cases of the mask block: an empty list of
    masks, a mask tensor without entries along a dropped dimension, a
    mask tensor without rows, and a mask with a not-a-number entry. *)
Definition constant_masks_model (masks : list Tensor5) : PixelModel :=
  mkModel 2 (fun kspace _ _ => (kspace, [("prob_masks"%string, masks)])).

Definition no_masks_model : PixelModel := constant_masks_model [].

Definition empty_dim_model : PixelModel :=
  constant_masks_model [mkTensor5 1 0 1 4 1 []].

Definition no_rows_model : PixelModel :=
  constant_masks_model [mkTensor5 0 1 1 4 1 []].

Definition nan_mask_model : PixelModel :=
  constant_masks_model [mkTensor5 1 1 1 2 1 [NaN; Finite 2]].

(** A batch whose [max_value] is shorter than its images. *)
Definition batch_short_max : PixelBatch :=
  mkBatch [1; 1; 1] [] [] [1; 1; 1] [Finite 1; Finite 1].

(** A batch whose SSIM loss tensor is two columns wide: the loss is
    [b x 1 x 1 x 2] here. *)
Definition wide_ssim_loss (X Y : list R) (data_range : list scalar)
  : Tensor4 :=
  match X with
  | [_; _; _] => mkTensor4 3 1 1 2 (repeat (Finite 0) 6)
  | _ => pixel_ssim_loss X Y data_range
  end.

(** A stack of two equal rows, and states that hold collected masks. *)
Definition equal_rows : Matrix :=
  mkMatrix 2 2 (map Finite [1 / 2; 1 / 4;  1 / 2; 1 / 4]).

Definition state_with_masks (masks : list Matrix) : State :=
  mkState masks [mkMatrix 1 1 [Finite 1]] [Finite 30] [Finite 0].

(** A batch of two images, the second with a not-a-number maximum
    value. *)
Definition batch_nan_max : PixelBatch :=
  mkBatch [1; 1] [] [] [1; 1] [Finite 1; NaN].

End Examples.

(** * Properties *)

Unset Implicit Arguments.

(** ** Scalars *)

Section ScalarFacts.

Local Open Scope R_scope.

Lemma log_finite_pos (r : R) : 0 < r -> log (Finite r) = Finite (ln r).
Proof.
  intros Hr. unfold log. destruct (Rlt_dec 0 r) as [_ | Hn]; [reflexivity | lra].
Qed.

Lemma log_zero : log (Finite 0) = NInf.
Proof.
  unfold log. destruct (Rlt_dec 0 0) as [Hlt | _]; [lra | ].
  destruct (Req_dec_T 0 0) as [_ | Hne]; [reflexivity | lra].
Qed.

Lemma scale_inf_zero (inf : scalar) : scale_inf 0 inf = NaN.
Proof.
  unfold scale_inf.
  destruct (Rlt_dec 0 0) as [Hlt | _]; [lra | ].
  destruct (Rlt_dec 0 0) as [Hlt | _]; [lra | reflexivity].
Qed.

Lemma eqb_finite_true (a b : R) : a = b -> eqb (Finite a) (Finite b) = true.
Proof.
  intros Hab. unfold eqb.
  destruct (Req_dec_T a b) as [_ | Hne]; [reflexivity | contradiction].
Qed.

Lemma eqb_finite_false (a b : R) : a <> b -> eqb (Finite a) (Finite b) = false.
Proof.
  intros Hab. unfold eqb.
  destruct (Req_dec_T a b) as [Heq | _]; [contradiction | reflexivity].
Qed.

Lemma sub_finite (a b : R) : sub (Finite a) (Finite b) = Finite (a - b).
Proof. reflexivity. Qed.

Lemma isclose_far (s b : R) :
  Rabs (s - b) > atol + rtol * Rabs b ->
  isclose (Finite s) (Finite b) = false.
Proof.
  intros Hfar. unfold isclose.
  destruct (Rle_dec (Rabs (s - b)) (atol + rtol * Rabs b)) as [Hle | _];
    [lra | reflexivity].
Qed.

Lemma isclose_exact (s b : R) : s = b -> isclose (Finite s) (Finite b) = true.
Proof.
  intros ->. unfold isclose.
  destruct (Rle_dec (Rabs (b - b)) (atol + rtol * Rabs b)) as [_ | Hn];
    [reflexivity | ].
  exfalso. apply Hn. replace (b - b) with 0 by lra. rewrite Rabs_R0.
  pose proof (Rabs_pos b). unfold atol, rtol. lra.
Qed.

(** [sum] and [mean] of finite values: the sum of the real numbers, and
    that sum divided by their number. *)
Lemma fold_add_finite (l : list R) (acc : R) :
  fold_left add (map Finite l) (Finite acc) = Finite (acc + Rsum l).
Proof.
  revert acc. induction l as [ | x l IH]; intros acc;
    cbn [map fold_left Rsum fold_right].
  - f_equal. lra.
  - cbn [add]. rewrite IH. f_equal. unfold Rsum. lra.
Qed.

Lemma sum_finite (l : list R) : sum (map Finite l) = Finite (Rsum l).
Proof.
  unfold sum. rewrite fold_add_finite. f_equal. lra.
Qed.

Lemma mean_finite (l : list R) :
  l <> [] -> mean (map Finite l) = Finite (Rsum l / INR (length l)).
Proof.
  intros Hne. unfold mean. rewrite sum_finite, length_map.
  destruct l as [ | x l]; [contradiction | reflexivity].
Qed.

(** [ln x <= x - 1] *)
Lemma ln_le_pred (x : R) : 0 < x -> ln x <= x - 1.
Proof.
  intros Hx. pose proof (exp_ineq1_le (ln x)) as Hexp.
  rewrite (exp_ln x Hx) in Hexp. lra.
Qed.

Lemma H_symmetric (p : R) : H p = H (1 - p).
Proof.
  unfold H. replace (1 - (1 - p)) with p by lra. lra.
Qed.

Lemma H_half : H (1 / 2) = ln 2.
Proof.
  unfold H. replace (1 - 1 / 2) with (/ 2) by lra.
  replace (1 / 2) with (/ 2) by lra.
  rewrite ln_Rinv by lra. lra.
Qed.

(** Gibbs' inequality for two outcomes. *)
Lemma H_le_ln2 (p : R) : 0 < p < 1 -> H p <= ln 2.
Proof.
  intros [Hp0 Hp1]. unfold H.
  assert (Hq : 0 < 1 - p) by lra.
  assert (Ha : - ln p - ln 2 <= / (2 * p) - 1).
  { pose proof (ln_le_pred (/ (2 * p))) as Hl.
    rewrite ln_Rinv in Hl by lra. rewrite ln_mult in Hl by lra.
    assert (Hpos : 0 < / (2 * p)) by (apply Rinv_0_lt_compat; lra).
    specialize (Hl Hpos). lra. }
  assert (Hb : - ln (1 - p) - ln 2 <= / (2 * (1 - p)) - 1).
  { pose proof (ln_le_pred (/ (2 * (1 - p)))) as Hl.
    rewrite ln_Rinv in Hl by lra. rewrite ln_mult in Hl by lra.
    assert (Hpos : 0 < / (2 * (1 - p))) by (apply Rinv_0_lt_compat; lra).
    specialize (Hl Hpos). lra. }
  assert (Ha' : p * (- ln p - ln 2) <= p * (/ (2 * p) - 1))
    by (apply Rmult_le_compat_l; lra).
  assert (Hb' : (1 - p) * (- ln (1 - p) - ln 2)
                <= (1 - p) * (/ (2 * (1 - p)) - 1))
    by (apply Rmult_le_compat_l; lra).
  assert (Hpa : p * (/ (2 * p) - 1) = / 2 - p) by (field; lra).
  assert (Hpb : (1 - p) * (/ (2 * (1 - p)) - 1) = / 2 - (1 - p))
    by (field; lra).
  lra.
Qed.

End ScalarFacts.

(** ** [entropy], entry by entry *)

Section EntropyFacts.

Local Open Scope R_scope.

Lemma entropy_unmasked_zero : entropy_unmasked (Finite 0) = NaN.
Proof.
  unfold entropy_unmasked. rewrite log_zero. simpl.
  rewrite scale_inf_zero. reflexivity.
Qed.

Lemma entropy_unmasked_one : entropy_unmasked (Finite 1) = NaN.
Proof.
  unfold entropy_unmasked. rewrite sub_finite.
  replace (1 - 1) with 0 by lra. rewrite log_zero.
  rewrite (log_finite_pos 1) by lra. simpl.
  rewrite scale_inf_zero. reflexivity.
Qed.

Lemma entropy_entry_zero : entropy_entry (Finite 0) = Finite 0.
Proof.
  unfold entropy_entry. rewrite (eqb_finite_true 0 0) by reflexivity.
  rewrite (eqb_finite_false 0 1) by lra. reflexivity.
Qed.

Lemma entropy_entry_one : entropy_entry (Finite 1) = Finite 0.
Proof.
  unfold entropy_entry.
  rewrite (eqb_finite_true 1 1) by reflexivity. reflexivity.
Qed.

Lemma entropy_entry_open (p : R) :
  0 < p < 1 -> entropy_entry (Finite p) = Finite (H p).
Proof.
  intros [Hp0 Hp1]. unfold entropy_entry.
  rewrite (eqb_finite_false p 0) by lra.
  rewrite (eqb_finite_false p 1) by lra.
  unfold entropy_unmasked. rewrite sub_finite.
  rewrite (log_finite_pos p) by lra.
  rewrite (log_finite_pos (1 - p)) by lra.
  reflexivity.
Qed.

(** The tensor code of [entropy] acts on each entry as [entropy_entry]. *)
Lemma entropy_data_list (d : list scalar) :
  assign_where
    (assign_where
       (map neg
          (zip_with add (zip_with mul d (map log d))
             (zip_with mul (map (sub (Finite 1)) d)
                (map log (map (sub (Finite 1)) d)))))
       (map (fun x => eqb x (Finite 0)) d) (Finite 0))
    (map (fun x => eqb x (Finite 1)) d) (Finite 0)
  = map entropy_entry d.
Proof.
  induction d as [ | x d IH]; simpl.
  - reflexivity.
  - rewrite IH. reflexivity.
Qed.

Lemma entropy_data (prob_mask : Matrix) :
  mdata (entropy prob_mask) = map entropy_entry (mdata prob_mask).
Proof.
  unfold entropy, masked_assign, eq_scalar, tneg, tadd, tmul, tlog, rsub,
    map2_entries, map_entries. simpl.
  apply entropy_data_list.
Qed.

Lemma entropy_rows (prob_mask : Matrix) :
  rows (entropy prob_mask) = rows prob_mask.
Proof. reflexivity. Qed.

Lemma entropy_cols (prob_mask : Matrix) :
  cols (entropy prob_mask) = cols prob_mask.
Proof. reflexivity. Qed.

Lemma entropy_eq (prob_mask : Matrix) :
  entropy prob_mask
  = mkMatrix (rows prob_mask) (cols prob_mask)
      (map entropy_entry (mdata prob_mask)).
Proof.
  rewrite <- entropy_data. reflexivity.
Qed.

End EntropyFacts.

Section EntropyClaims.

Local Open Scope R_scope.

Lemma entropy_entry_nan : entropy_entry NaN = NaN.
Proof. reflexivity. Qed.

Lemma mget_entropy (prob_mask : Matrix) (r c : nat) :
  mget (entropy prob_mask) r c = entropy_entry (mget prob_mask r c).
Proof.
  unfold mget. rewrite entropy_data, entropy_cols.
  rewrite <- entropy_entry_nan at 1. apply map_nth.
Qed.

Lemma mrow_entropy (prob_mask : Matrix) (r : nat) :
  mrow (entropy prob_mask) r
  = map (fun l => entropy_entry (mget prob_mask r l))
      (seq 0 (cols prob_mask)).
Proof.
  unfold mrow. rewrite entropy_cols. apply map_ext.
  intros l. apply mget_entropy.
Qed.

Lemma sum_dim1_entropy (prob_mask : Matrix) :
  sum_dim1 (entropy prob_mask)
  = map (fun n =>
           sum (map (fun l => entropy_entry (mget prob_mask n l))
                  (seq 0 (cols prob_mask))))
      (seq 0 (rows prob_mask)).
Proof.
  unfold sum_dim1. rewrite entropy_rows. apply map_ext.
  intros n. rewrite mrow_entropy. reflexivity.
Qed.

(** C4.  [entropy] computes [-(p ln p + (1-p) ln (1-p))] entry by entry,
    and at every entry where [p] is 0 or 1 it returns exactly 0: there
    the first line of the function yields not-a-number, and the two
    masked assignments overwrite it.  The sums taken afterwards
    ([sum(dim=1)]) run over the overwritten entries. *)
Theorem entropy_elementwise_override (prob_mask : Matrix) (r c : nat) :
  let p := mget prob_mask r c in
  let ent := mget (entropy prob_mask) r c in
  (forall x : R,
      p = Finite x -> 0 < x < 1 ->
      ent = Finite (- (x * ln x + (1 - x) * ln (1 - x)))) /\
  (p = Finite 0 \/ p = Finite 1 ->
   ent = Finite 0 /\ entropy_unmasked p = NaN) /\
  sum_dim1 (entropy prob_mask)
  = map (fun n =>
           sum (map (fun l => entropy_entry (mget prob_mask n l))
                  (seq 0 (cols prob_mask))))
      (seq 0 (rows prob_mask)).
Proof.
  cbv zeta. rewrite mget_entropy.
  split; [ | split].
  - intros x -> Hx. rewrite (entropy_entry_open x Hx). reflexivity.
  - intros [-> | ->].
    + split; [apply entropy_entry_zero | apply entropy_unmasked_zero].
    + split; [apply entropy_entry_one | apply entropy_unmasked_one].
  - apply sum_dim1_entropy.
Qed.

Lemma entropy_elementwise_override_witness :
  mget (entropy Examples.row_0_half_1) 0 0 = Finite 0 /\
  mget (entropy Examples.row_0_half_1) 0 1
  = Finite (- (1 / 2 * ln (1 / 2) + (1 - 1 / 2) * ln (1 - 1 / 2))) /\
  mget (entropy Examples.row_0_half_1) 0 2 = Finite 0.
Proof.
  split; [ | split].
  - apply (proj1 (proj2 (entropy_elementwise_override
                           Examples.row_0_half_1 0 0))).
    left. reflexivity.
  - apply (proj1 (entropy_elementwise_override Examples.row_0_half_1 0 1)).
    + reflexivity.
    + lra.
  - apply (proj1 (proj2 (entropy_elementwise_override
                           Examples.row_0_half_1 0 2))).
    right. reflexivity.
Defined.

Lemma map_entropy_entry_sub (d : list scalar) :
  Forall open_unit d ->
  map entropy_entry (map (sub (Finite 1)) d) = map entropy_entry d.
Proof.
  induction 1 as [ | x d [p [-> Hp]] _ IH]; cbn [map].
  - reflexivity.
  - rewrite IH. f_equal. rewrite sub_finite.
    rewrite (entropy_entry_open p Hp).
    rewrite (entropy_entry_open (1 - p)) by lra.
    f_equal. symmetry. apply H_symmetric.
Qed.

(** The formula of [entropy] in exact arithmetic.  On a mask whose
    entries lie strictly between 0 and 1, and without rounding,
    [entropy] is symmetric, [H(p) = H(1-p)], every entry of the result
    is at most [ln 2], and [ln 2] is the value at one half. *)
Lemma entropy_exact (prob_mask : Matrix) :
  Forall open_unit (mdata prob_mask) ->
  entropy (rsub (Finite 1) prob_mask) = entropy prob_mask /\
  Forall (fun e => exists h : R, e = Finite h /\ h <= ln 2)
         (mdata (entropy prob_mask)) /\
  (forall p : R, 0 < p < 1 ->
     entropy_entry (Finite p) = entropy_entry (Finite (1 - p)) /\
     entropy_entry (Finite p) = Finite (H p) /\
     H p <= H (1 / 2)) /\
  entropy (mkMatrix 1 1 [Finite (1 / 2)]) = mkMatrix 1 1 [Finite (ln 2)].
Proof.
  intros Hall. split; [ | split; [ | split]].
  - rewrite !entropy_eq. unfold rsub, map_entries. simpl.
    rewrite (map_entropy_entry_sub _ Hall). reflexivity.
  - rewrite entropy_data. induction Hall as [ | x d [p [-> Hp]] _ IH]; simpl.
    + constructor.
    + constructor; [ | exact IH].
      exists (H p). split; [apply (entropy_entry_open p Hp) | ].
      apply (H_le_ln2 p Hp).
  - intros p Hp. split; [ | split].
    + rewrite (entropy_entry_open p Hp).
      rewrite (entropy_entry_open (1 - p)) by lra.
      f_equal. apply H_symmetric.
    + apply (entropy_entry_open p Hp).
    + rewrite H_half. apply (H_le_ln2 p Hp).
  - rewrite entropy_eq. simpl.
    rewrite (entropy_entry_open (1 / 2)) by lra.
    rewrite H_half. reflexivity.
Qed.

Lemma open_unit_row_third_half :
  Forall open_unit (mdata Examples.row_third_half).
Proof.
  repeat constructor.
  - exists (1 / 3). split; [reflexivity | lra].
  - exists (1 / 2). split; [reflexivity | lra].
Qed.

End EntropyClaims.

Section Binary64Facts.

Import PrimFloat FloatOps FloatAxioms.
Local Open Scope float_scope.

(** C9, as it is stated, fails on binary64 numbers.  For [p] the number
    nearest to [1e-20], strictly between 0 and 1, [1 - p] rounds to 1;
    there the second masked assignment returns exactly 0, whatever the
    logarithm, while [entropy] at [p] is not 0 for a logarithm that is 0
    at 1 and, at [p], within one unit in the last place of the true
    value. *)
Lemma entropy_binary64_not_symmetric :
  ltb 0 Binary64.tiny = true /\
  ltb Binary64.tiny 1 = true /\
  1 - Binary64.tiny = 1 /\
  (forall flog : float -> float,
      Binary64.entropy_entry flog (1 - Binary64.tiny) = 0) /\
  (forall (flog : float -> float) (L : float),
      flog 1 = 0 ->
      flog Binary64.tiny = L ->
      In L [next_down Binary64.log_tiny; Binary64.log_tiny;
            next_up Binary64.log_tiny] ->
      PrimFloat.eqb (Binary64.entropy_entry flog Binary64.tiny)
        (Binary64.entropy_entry flog (1 - Binary64.tiny)) = false).
Proof.
  split; [reflexivity | ]. split; [reflexivity | ]. split; [reflexivity | ].
  split.
  - intros flog. reflexivity.
  - intros flog L Hone Htiny Hin.
    unfold Binary64.entropy_entry.
    change (1 - Binary64.tiny) with 1.
    rewrite Hone, Htiny. simpl in Hin.
    destruct Hin as [<- | [<- | [<- | []]]]; vm_compute; reflexivity.
Qed.

(** Addition of binary64 numbers is commutative. *)
Lemma SFadd_comm (prec emax : Z) (x y : SpecFloat.spec_float) :
  SpecFloat.SFadd prec emax x y = SpecFloat.SFadd prec emax y x.
Proof.
  destruct x as [sx | sx | | sx mx ex], y as [sy | sy | | sy my ey];
    cbn [SpecFloat.SFadd]; try reflexivity.
  - destruct sx, sy; reflexivity.
  - destruct sx, sy; reflexivity.
  - rewrite (Z.min_comm ex ey), Z.add_comm. reflexivity.
Qed.

Lemma float_add_comm (x y : float) : x + y = y + x.
Proof.
  apply Prim2SF_inj. rewrite !add_spec. apply SFadd_comm.
Qed.

(** What [==] against 0 and against 1 accepts: the two zeros, and 1. *)
Lemma eqb_zero (x : float) : PrimFloat.eqb x 0 = true -> 1 - x = 1.
Proof.
  rewrite eqb_spec. intros Hx.
  rewrite <- (SF2Prim_Prim2SF x).
  destruct (Prim2SF x) as [s | s | | s m e].
  - destruct s; reflexivity.
  - destruct s; discriminate.
  - discriminate.
  - destruct s; discriminate.
Qed.

Lemma eqb_one (x : float) : PrimFloat.eqb x 1 = true -> x = 1.
Proof.
  rewrite eqb_spec. intros Hx.
  apply Prim2SF_inj.
  destruct (Prim2SF x) as [s | s | | s m e].
  - destruct s; discriminate.
  - destruct s; discriminate.
  - discriminate.
  - change (Prim2SF 1)
      with (SpecFloat.S754_finite false 4503599627370496 (-52)) in *.
    unfold SpecFloat.SFeqb, SpecFloat.SFcompare in Hx.
    destruct s; [discriminate | ].
    destruct (Z.compare_spec e (-52)) as [He | He | He]; try discriminate.
    destruct (PosDef.Pos.compare_cont Eq m 4503599627370496) eqn:Hm;
      try discriminate.
    apply Pcompare_Eq_eq in Hm. rewrite He, Hm. reflexivity.
Qed.

(** On binary64 numbers [entropy] gives the same at [p] and at [1 - p]
    as soon as the subtraction loses nothing, that is when [1 - (1 - p)]
    gives [p] back: the two products are the same and their sum does
    not depend on the order. *)
Lemma entropy_binary64_symmetric (flog : float -> float) (x : float) :
  PrimFloat.eqb x 0 = false ->
  PrimFloat.eqb x 1 = false ->
  1 - (1 - x) = x ->
  Binary64.entropy_entry flog (1 - x) = Binary64.entropy_entry flog x.
Proof.
  intros H0 H1 Hx. unfold Binary64.entropy_entry.
  rewrite H0, H1, Hx.
  destruct (PrimFloat.eqb (1 - x) 0) eqn:Hq0.
  - apply eqb_zero in Hq0. rewrite Hq0 in Hx. subst x. discriminate.
  - destruct (PrimFloat.eqb (1 - x) 1) eqn:Hq1.
    + apply eqb_one in Hq1. rewrite Hq1 in Hx.
      change (1 - 1) with 0 in Hx. subst x. discriminate.
    + rewrite float_add_comm. reflexivity.
Qed.

Local Close Scope float_scope.
Local Open Scope R_scope.

(** C9.  On binary64 numbers, and whatever the logarithm, [entropy] is
    symmetric, [H(p) = H(1-p)], at every [p] other than 0 and 1 for
    which [1 - p] is computed without loss ([1 - (1 - p)] gives [p]
    back).  In exact arithmetic, on a mask whose entries lie strictly
    between 0 and 1, [entropy] is symmetric, every entry of the result
    is at most [ln 2], and [ln 2] is the value at one half. *)
Theorem entropy_symmetric_bounded
    (flog : float -> float) (x : float) (prob_mask : Matrix) :
  PrimFloat.eqb x 0 = false ->
  PrimFloat.eqb x 1 = false ->
  (1 - (1 - x))%float = x ->
  Forall open_unit (mdata prob_mask) ->
  Binary64.entropy_entry flog (1 - x)%float = Binary64.entropy_entry flog x /\
  entropy (rsub (Finite 1) prob_mask) = entropy prob_mask /\
  Forall (fun e => exists h : R, e = Finite h /\ h <= ln 2)
         (mdata (entropy prob_mask)) /\
  (forall p : R, 0 < p < 1 ->
     entropy_entry (Finite p) = entropy_entry (Finite (1 - p)) /\
     entropy_entry (Finite p) = Finite (H p) /\
     H p <= H (1 / 2)) /\
  entropy (mkMatrix 1 1 [Finite (1 / 2)]) = mkMatrix 1 1 [Finite (ln 2)].
Proof.
  intros H0 H1 Hx Hall.
  split; [exact (entropy_binary64_symmetric flog x H0 H1 Hx) | ].
  exact (entropy_exact prob_mask Hall).
Qed.

Lemma entropy_symmetric_bounded_witness :
  PrimFloat.eqb 0.25 0 = false /\
  PrimFloat.eqb 0.25 1 = false /\
  (1 - (1 - 0.25))%float = 0.25%float /\
  Forall open_unit (mdata Examples.row_third_half) /\
  Binary64.entropy_entry (fun y => (y - 1)%float) (1 - 0.25)%float
  = Binary64.entropy_entry (fun y => (y - 1)%float) 0.25 /\
  entropy (rsub (Finite 1) Examples.row_third_half)
  = entropy Examples.row_third_half.
Proof.
  split; [reflexivity | ]. split; [reflexivity | ]. split; [reflexivity | ].
  split; [exact open_unit_row_third_half | ].
  destruct (entropy_symmetric_bounded (fun y => (y - 1)%float) 0.25%float
              Examples.row_third_half eq_refl eq_refl eq_refl
              open_unit_row_third_half) as [Hfloat [Hexact _]].
  split; [exact Hfloat | exact Hexact].
Defined.

End Binary64Facts.

(** ** The evaluation loop *)

Section LoopFacts.

Variables Image Kspace : Type.
Variable psnr : Image -> Image -> scalar -> scalar.
Variable nmse : Image -> Image -> scalar.
Variable ssim_loss : list Image -> list Image -> list scalar -> Tensor4.

Local Abbreviation Batch := (Batch Image Kspace).
Local Abbreviation Model := (Model Image Kspace).
Local Abbreviation step' := (step psnr nmse ssim_loss).
Local Abbreviation run_steps' := (run_steps psnr nmse ssim_loss).
Local Abbreviation eval_loop' := (eval_loop psnr nmse ssim_loss).

Lemma bind_ok {A B : Type} (r : result A) (k : A -> result B) (b : B) :
  bind r k = Ok b -> exists a, r = Ok a /\ k a = Ok b.
Proof.
  destruct r as [a | e]; simpl; intros Hb.
  - exists a. split; [reflexivity | exact Hb].
  - discriminate.
Qed.

Lemma step_eq (model : Model) (batch : Batch) (st : State) :
  step' model batch st
  = (masks <- save_prob_masks model (extra_of model batch)
               (all_prob_masks st) ;;
     Ok (mkState masks
           (all_ssims st ++ [batch_ssim ssim_loss batch (output_of model batch)])
           (all_psnrs st ++ batch_psnrs psnr batch (output_of model batch))
           (all_nmses st ++ batch_nmses nmse batch (output_of model batch)))).
Proof.
  unfold step, output_of, extra_of.
  destruct (forward model (kspace batch) (masked_kspace batch) (mask batch))
    as [output extra].
  reflexivity.
Qed.

Lemma eval_loop_processed (model : Model) (cap : option Z)
    (batches : list Batch) :
  forall (i : nat) (st : State),
    eval_loop' model cap i batches st
    = run_steps' model (processed cap i batches) st.
Proof.
  induction batches as [ | batch rest IH]; intros i st; simpl.
  - reflexivity.
  - destruct (at_cap i cap); simpl.
    + reflexivity.
    + destruct (step' model batch st) as [st' | e]; simpl.
      * apply IH.
      * reflexivity.
Qed.

Lemma run_steps_app (model : Model) (pre post : list Batch) :
  forall st : State,
    run_steps' model (pre ++ post) st
    = (st1 <- run_steps' model pre st ;; run_steps' model post st1).
Proof.
  induction pre as [ | batch pre IH]; intros st; simpl.
  - reflexivity.
  - destruct (step' model batch st) as [st' | e]; simpl.
    + apply IH.
    + reflexivity.
Qed.

(** What a successful pass over some batches leaves in the three metric
    sequences. *)
Lemma run_steps_metrics (model : Model) (batches : list Batch) :
  forall st st' : State,
    run_steps' model batches st = Ok st' ->
    all_ssims st'
    = all_ssims st
      ++ map (fun b => batch_ssim ssim_loss b (output_of model b)) batches /\
    all_psnrs st'
    = all_psnrs st
      ++ flat_map (fun b => batch_psnrs psnr b (output_of model b)) batches /\
    all_nmses st'
    = all_nmses st
      ++ flat_map (fun b => batch_nmses nmse b (output_of model b)) batches.
Proof.
  induction batches as [ | batch rest IH]; intros st st' Hrun; simpl in Hrun.
  - injection Hrun as <-. simpl. rewrite !app_nil_r. repeat split.
  - apply bind_ok in Hrun. destruct Hrun as [st1 [Hstep Hrest]].
    rewrite step_eq in Hstep. apply bind_ok in Hstep.
    destruct Hstep as [masks [_ Hst1]]. injection Hst1 as <-.
    destruct (IH _ _ Hrest) as [Hs [Hp Hn]]. simpl in Hs, Hp, Hn.
    simpl. rewrite Hs, Hp, Hn, <- !app_assoc. repeat split.
Qed.

(** A batch whose step fails makes the whole pass fail. *)
Lemma run_steps_failing_batch (model : Model) (batches : list Batch)
    (batch : Batch) :
  In batch batches ->
  (forall st, is_ok (step' model batch st) = false) ->
  forall st, is_ok (run_steps' model batches st) = false.
Proof.
  intros Hin Hfail.
  induction batches as [ | b rest IH]; intros st; simpl.
  - contradiction.
  - destruct Hin as [-> | Hin].
    + specialize (Hfail st).
      destruct (step' model batch st) as [st' | e]; simpl.
      * discriminate.
      * reflexivity.
    + destruct (step' model b st) as [st' | e]; simpl.
      * apply IH. exact Hin.
      * reflexivity.
Qed.

(** If no batch carries the key ["prob_masks"], every step succeeds and
    the collected masks stay as they were. *)
Lemma run_steps_without_masks (model : Model) (batches : list Batch) :
  (forall b, In b batches ->
             Dict.mem "prob_masks" (extra_of model b) = false) ->
  forall st : State,
    run_steps' model batches st
    = Ok (mkState (all_prob_masks st)
            (all_ssims st
             ++ map (fun b => batch_ssim ssim_loss b (output_of model b))
                  batches)
            (all_psnrs st
             ++ flat_map (fun b => batch_psnrs psnr b (output_of model b))
                  batches)
            (all_nmses st
             ++ flat_map (fun b => batch_nmses nmse b (output_of model b))
                  batches)).
Proof.
  induction batches as [ | batch rest IH]; intros Hno st; simpl.
  - rewrite !app_nil_r. destruct st; reflexivity.
  - rewrite step_eq.
    assert (Hget : Dict.get "prob_masks" (extra_of model batch) = None).
    { specialize (Hno batch (or_introl eq_refl)). unfold Dict.mem in Hno.
      destruct (Dict.get "prob_masks" (extra_of model batch));
        [discriminate | reflexivity]. }
    unfold save_prob_masks. rewrite Hget. simpl.
    rewrite IH by (intros b Hb; apply Hno; right; exact Hb).
    simpl. rewrite <- !app_assoc. reflexivity.
Qed.

(** The block under [if "prob_masks" in extra_outputs] when the list
    holds one mask tensor with at least one row: only the first row is
    summed and compared. *)
Lemma save_prob_masks_single (model : Model) (extra : extra_outputs)
    (masks : list Matrix) (t : Tensor5) (m : Matrix) :
  Dict.get "prob_masks" extra = Some [t] ->
  index_00_0 t = Ok m ->
  (0 < rows m)%nat ->
  save_prob_masks model extra masks
  = if isclose (sum (mrow m 0)) (Finite (IZR (budget model)))
    then Ok (masks ++ [m])
    else Raise (AssertionError
                  (BudgetMismatch (budget model) (sum (mrow m 0)))).
Proof.
  intros Hget Hidx Hrows. unfold save_prob_masks. rewrite Hget.
  cbn [length Nat.eqb negb nth_error]. rewrite Hidx. cbn [bind].
  unfold first_row.
  destruct (Nat.eqb_spec (rows m) 0) as [Heq | _]; [lia | reflexivity].
Qed.

Lemma processed_nil_iff (cap : option Z) (batches : list Batch) :
  processed cap 0 batches = [] <-> batches = [] \/ cap = Some 0%Z.
Proof.
  destruct batches as [ | batch rest]; cbn [processed at_cap].
  - split; [left; reflexivity | reflexivity].
  - destruct cap as [n | ]; cbn [processed at_cap].
    + change (Z.of_nat 0) with 0%Z.
      destruct (Z.eqb_spec 0 n) as [<- | Hne].
      * split; [right; reflexivity | reflexivity].
      * split; [discriminate | ].
        intros [Hnil | Hcap]; [discriminate | ].
        injection Hcap as Hn. symmetry in Hn. contradiction.
    + split; [discriminate | intros [Hnil | Hcap]; discriminate].
Qed.

End LoopFacts.

(** ** Finalisation *)

Section FinalizeFacts.

Lemma concat_as_column (xs : list scalar) : concat (as_column xs) = xs.
Proof.
  induction xs as [ | x xs IH]; simpl.
  - reflexivity.
  - rewrite IH. reflexivity.
Qed.

Lemma np_concatenate_column (xs : list scalar) :
  np_concatenate (as_column xs)
  = match xs with [] => Raise ValueError | _ :: _ => Ok xs end.
Proof.
  destruct xs as [ | x xs]; [reflexivity | ].
  unfold np_concatenate. rewrite concat_as_column. reflexivity.
Qed.

Lemma cat_ok_data (ts : list Matrix) (m : Matrix) :
  cat ts = Ok m ->
  mdata m = concat (map mdata ts) /\
  rows m = list_sum (map rows ts) /\
  Forall (fun t => cols t = cols m) ts.
Proof.
  unfold cat. destruct ts as [ | t0 rest]; [discriminate | ].
  destruct (forallb (fun t => Nat.eqb (cols t) (cols t0)) (t0 :: rest))
    eqn:Hcols; [ | discriminate].
  intros Hm. injection Hm as <-. simpl. repeat split.
  rewrite forallb_forall in Hcols. apply Forall_forall.
  intros t Ht. apply Nat.eqb_eq. apply Hcols. exact Ht.
Qed.

Lemma base_report_ok (st : State) (report : Report) :
  base_report st = Ok report ->
  report
  = [ ("ssim"%string, mean (concat (map mdata (all_ssims st))));
      ("psnr"%string, mean (all_psnrs st));
      ("nmse"%string, mean (all_nmses st)) ].
Proof.
  unfold base_report. rewrite !np_concatenate_column.
  destruct (all_psnrs st) as [ | p ps]; [discriminate | ].
  destruct (all_nmses st) as [ | n ns]; [discriminate | ].
  simpl. destruct (cat (all_ssims st)) as [ssim_tensor | e] eqn:Hcat;
    [ | discriminate].
  simpl. intros Hr. injection Hr as <-.
  unfold mean_all. destruct (cat_ok_data _ _ Hcat) as [-> _]. reflexivity.
Qed.

Lemma finalize_without_masks (st : State) :
  all_prob_masks st = [] -> finalize st = base_report st.
Proof.
  intros Hm. unfold finalize, base_report. rewrite Hm.
  destruct (np_concatenate (as_column (all_psnrs st))); simpl;
    [ | reflexivity].
  destruct (np_concatenate (as_column (all_nmses st))); simpl;
    [ | reflexivity].
  destruct (cat (all_ssims st)); reflexivity.
Qed.

Lemma finalize_base_raise (st : State) (e : exn) :
  base_report st = Raise e -> finalize st = Raise e.
Proof.
  unfold finalize, base_report.
  destruct (np_concatenate (as_column (all_psnrs st))); simpl;
    [ | exact (fun H => H)].
  destruct (np_concatenate (as_column (all_nmses st))); simpl;
    [ | exact (fun H => H)].
  destruct (cat (all_ssims st)); simpl; [discriminate | exact (fun H => H)].
Qed.

Lemma finalize_with_masks (st : State) (base : Report) (pm : Matrix) :
  base_report st = Ok base ->
  all_prob_masks st <> [] ->
  cat (all_prob_masks st) = Ok pm ->
  finalize st
  = Ok (Dict.update base
          [ ("cond_ent_ind"%string, mean (sum_dim1 (entropy pm)));
            ("marg_ent_ind"%string,
             sum (mrow (entropy (mean_dim0_keepdim pm)) 0));
            ("mi_ind"%string,
             sub (sum (mrow (entropy (mean_dim0_keepdim pm)) 0))
                 (mean (sum_dim1 (entropy pm)))) ]).
Proof.
  intros Hbase Hne Hcat. unfold finalize. unfold base_report in Hbase.
  destruct (np_concatenate (as_column (all_psnrs st))) as [pa | ]; simpl in *;
    [ | discriminate].
  destruct (np_concatenate (as_column (all_nmses st))) as [na | ]; simpl in *;
    [ | discriminate].
  destruct (cat (all_ssims st)) as [ssim_tensor | ]; simpl in *;
    [ | discriminate].
  injection Hbase as <-.
  destruct (all_prob_masks st) as [ | m0 ms] eqn:Hmasks; [contradiction | ].
  rewrite Hcat. reflexivity.
Qed.

Lemma finalize_masks_raise (st : State) (base : Report) (e : exn) :
  base_report st = Ok base ->
  cat (all_prob_masks st) = Raise e ->
  all_prob_masks st <> [] ->
  finalize st = Raise e.
Proof.
  intros Hbase Hcat Hne. unfold finalize. unfold base_report in Hbase.
  destruct (np_concatenate (as_column (all_psnrs st))) as [pa | ]; simpl in *;
    [ | discriminate].
  destruct (np_concatenate (as_column (all_nmses st))) as [na | ]; simpl in *;
    [ | discriminate].
  destruct (cat (all_ssims st)) as [ssim_tensor | ]; simpl in *;
    [ | discriminate].
  destruct (all_prob_masks st) as [ | m0 ms] eqn:Hmasks; [contradiction | ].
  rewrite Hcat. reflexivity.
Qed.

(** Whatever else a report holds, its three base metrics are the flat
    means of the three collected sequences. *)
Lemma finalize_ok_base (st : State) (report : Report) :
  finalize st = Ok report ->
  Dict.get "ssim" report = Some (mean (concat (map mdata (all_ssims st)))) /\
  Dict.get "psnr" report = Some (mean (all_psnrs st)) /\
  Dict.get "nmse" report = Some (mean (all_nmses st)).
Proof.
  intros Hfin.
  destruct (base_report st) as [base | e] eqn:Hbase.
  - pose proof (base_report_ok _ _ Hbase) as ->.
    destruct (all_prob_masks st) as [ | m0 ms] eqn:Hmasks.
    + rewrite (finalize_without_masks _ Hmasks), Hbase in Hfin.
      injection Hfin as <-. repeat split.
    + destruct (cat (all_prob_masks st)) as [pm | e] eqn:Hcat.
      * rewrite (finalize_with_masks st _ pm Hbase) in Hfin;
          [ | rewrite Hmasks; discriminate | exact Hcat].
        injection Hfin as <-. repeat split.
      * rewrite (finalize_masks_raise st _ e Hbase Hcat) in Hfin;
          [discriminate | rewrite Hmasks; discriminate].
  - rewrite (finalize_base_raise _ _ Hbase) in Hfin. discriminate.
Qed.

Lemma finalize_ok_cat (st : State) (report : Report) :
  finalize st = Ok report ->
  exists ssim_tensor, cat (all_ssims st) = Ok ssim_tensor.
Proof.
  unfold finalize.
  destruct (np_concatenate (as_column (all_psnrs st))); simpl;
    [ | discriminate].
  destruct (np_concatenate (as_column (all_nmses st))); simpl;
    [ | discriminate].
  destruct (cat (all_ssims st)) as [ssim_tensor | e]; simpl;
    [ | discriminate].
  intros _. exists ssim_tensor. reflexivity.
Qed.


(** When a report is produced. *)
Lemma finalize_succeeds (st : State) :
  all_psnrs st <> [] ->
  all_nmses st <> [] ->
  is_ok (cat (all_ssims st)) = true ->
  all_prob_masks st = [] \/ is_ok (cat (all_prob_masks st)) = true ->
  exists report, finalize st = Ok report.
Proof.
  intros Hp Hn Hs Hm.
  assert (Hbase : exists base, base_report st = Ok base).
  { unfold base_report. rewrite !np_concatenate_column.
    destruct (all_psnrs st) as [ | p ps]; [contradiction | ].
    destruct (all_nmses st) as [ | n ns]; [contradiction | ].
    destruct (cat (all_ssims st)) as [ssim_tensor | e]; [ | discriminate].
    eexists. reflexivity. }
  destruct Hbase as [base Hbase].
  destruct (all_prob_masks st) as [ | m0 ms] eqn:Hmasks.
  - exists base. rewrite (finalize_without_masks _ Hmasks). exact Hbase.
  - destruct Hm as [Hm | Hm]; [discriminate | ].
    destruct (cat (m0 :: ms)) as [pm | e] eqn:Hcat; [ | discriminate].
    eexists. apply (finalize_with_masks st base pm Hbase).
    + rewrite Hmasks. discriminate.
    + rewrite Hmasks. exact Hcat.
Qed.

End FinalizeFacts.

(** ** The entropy statistics of a stack of masks *)

Section StatisticsFacts.

Local Open Scope R_scope.

Lemma nth_map_seq (f : nat -> scalar) (n l : nat) :
  (l < n)%nat -> nth l (map f (seq 0 n)) NaN = f l.
Proof.
  intros Hl.
  rewrite (nth_indep (map f (seq 0 n)) NaN (f 0%nat))
    by (rewrite length_map, length_seq; exact Hl).
  rewrite map_nth, seq_nth by exact Hl. reflexivity.
Qed.

(** Entry [l] of [pm.mean(dim=0, keepdim=True)] is the mean of column
    [l] of [pm]. *)
Lemma mget_mean_dim0 (pm : Matrix) (l : nat) :
  (l < cols pm)%nat -> mget (mean_dim0_keepdim pm) 0 l = mean (mcol pm l).
Proof.
  intros Hl. unfold mget. cbn [mean_dim0_keepdim cols mdata].
  rewrite Nat.mul_0_l, Nat.add_0_l. apply nth_map_seq. exact Hl.
Qed.

Lemma marg_entropy_eq (pm : Matrix) :
  sum (mrow (entropy (mean_dim0_keepdim pm)) 0)
  = sum (map (fun l => entropy_entry (mean (mcol pm l))) (seq 0 (cols pm))).
Proof.
  rewrite mrow_entropy. cbn [mean_dim0_keepdim cols]. f_equal.
  apply map_ext_in. intros l Hl. apply in_seq in Hl.
  rewrite mget_mean_dim0 by lia. reflexivity.
Qed.

Lemma three_masks_marginal :
  mean_dim0_keepdim Examples.three_masks
  = mkMatrix 1 4 (map Finite [2 / 3; 2 / 3; 2 / 3; 0]).
Proof.
  unfold mean_dim0_keepdim, mcol, mget, mean, sum. cbn -[INR].
  repeat (f_equal; try (simpl; lra)).
Qed.

Lemma three_masks_marg_entropy :
  sum (mrow (entropy (mean_dim0_keepdim Examples.three_masks)) 0)
  = Finite (3 * H (2 / 3)).
Proof.
  rewrite three_masks_marginal, mrow_entropy. cbn -[entropy_entry].
  rewrite (entropy_entry_open (2 / 3)) by lra. rewrite entropy_entry_zero.
  unfold sum. cbn [fold_left add]. f_equal. lra.
Qed.

Lemma three_masks_cond_entropy :
  mean (sum_dim1 (entropy Examples.three_masks)) = Finite 0.
Proof.
  rewrite sum_dim1_entropy. cbn -[entropy_entry INR].
  rewrite entropy_entry_zero, entropy_entry_one.
  unfold mean, sum. cbn -[INR]. f_equal. simpl. lra.
Qed.

End StatisticsFacts.

(** ** [cli_main] *)

Section CliFacts.

Variables Image Kspace HyperParameters StateDict : Type.
Variable psnr : Image -> Image -> scalar -> scalar.
Variable nmse : Image -> Image -> scalar.
Variable ssim_loss : list Image -> list Image -> list scalar -> Tensor4.
Variable torch_load : string -> result (Checkpoint HyperParameters StateDict).
Variable construct :
  module_class -> HyperParameters -> result (Model Image Kspace).
Variable load_state_dict :
  Model Image Kspace -> StateDict -> result (Model Image Kspace).
Variables val_dataloader train_dataloader : list (Batch Image Kspace).

Local Abbreviation Batch := (Batch Image Kspace).
Local Abbreviation Model := (Model Image Kspace).
Local Abbreviation step' := (step psnr nmse ssim_loss).
Local Abbreviation run_steps' := (run_steps psnr nmse ssim_loss).
Local Abbreviation load' :=
  (load_with_fallback torch_load construct load_state_dict).
Local Abbreviation evaluate' :=
  (evaluate psnr nmse ssim_loss val_dataloader train_dataloader).
Local Abbreviation cli_main' :=
  (cli_main psnr nmse ssim_loss torch_load construct load_state_dict
     val_dataloader train_dataloader).

(** The batches the loop body runs on, for given arguments. *)
Local Abbreviation seen args :=
  (processed (num_batches args) 0
     (data_loader val_dataloader train_dataloader args)).

Lemma cli_main_loaded (args : Args) (model : Model) :
  snd (load' args) = Ok model ->
  snd (cli_main' args) = evaluate' model args.
Proof.
  unfold cli_main. destruct (load' args) as [calls loaded]. simpl.
  intros ->. reflexivity.
Qed.

Lemma evaluate_eq (model : Model) (args : Args) :
  evaluate' model args
  = (st <- run_steps' model (seen args) init_state ;; finalize st).
Proof.
  unfold evaluate. rewrite eval_loop_processed. reflexivity.
Qed.

Lemma evaluate_ok (model : Model) (args : Args) (report : Report) :
  evaluate' model args = Ok report ->
  exists st,
    run_steps' model (seen args) init_state = Ok st /\
    finalize st = Ok report.
Proof.
  rewrite evaluate_eq. apply bind_ok.
Qed.

Lemma flat_map_map {A B C : Type} (f : B -> C) (g : A -> list B)
    (l : list A) :
  flat_map (fun a => map f (g a)) l = map f (flat_map g l).
Proof.
  induction l as [ | a l IH]; simpl.
  - reflexivity.
  - rewrite map_app, IH. reflexivity.
Qed.

(** C10.  When the loop body runs on no batch, because the data loader
    is empty or the cap is zero, [np.concatenate] of the empty PSNR
    sequence raises [ValueError]: the run ends with that error and
    prints no report. *)
Theorem zero_batches_no_report (args : Args) (model : Model) :
  snd (load' args) = Ok model ->
  data_loader val_dataloader train_dataloader args = []
  \/ num_batches args = Some 0%Z ->
  seen args = [] /\
  eval_loop psnr nmse ssim_loss model (num_batches args) 0
    (data_loader val_dataloader train_dataloader args) init_state
  = Ok init_state /\
  finalize init_state = Raise ValueError /\
  snd (cli_main' args) = Raise ValueError.
Proof.
  intros Hload Hzero.
  assert (Hseen : seen args = []) by (apply processed_nil_iff; exact Hzero).
  split; [exact Hseen | ].
  split; [rewrite eval_loop_processed, Hseen; reflexivity | ].
  split; [reflexivity | ].
  rewrite (cli_main_loaded _ _ Hload), evaluate_eq, Hseen. reflexivity.
Qed.

(** C6.  When the loop ends with no collected probability mask, the
    report is the dictionary of the three base metrics: its keys are
    exactly [ssim], [psnr] and [nmse], and none of the entropy keys is
    present. *)
Theorem report_without_masks (args : Args) (model : Model) (st : State)
    (report : Report) :
  snd (load' args) = Ok model ->
  run_steps' model (seen args) init_state = Ok st ->
  all_prob_masks st = [] ->
  snd (cli_main' args) = Ok report ->
  Dict.keys report = ["ssim"; "psnr"; "nmse"]%string /\
  Dict.mem "cond_ent_ind" report = false /\
  Dict.mem "marg_ent_ind" report = false /\
  Dict.mem "mi_ind" report = false /\
  base_report st = Ok report.
Proof.
  intros Hload Hrun Hmasks Hmain.
  rewrite (cli_main_loaded _ _ Hload), evaluate_eq, Hrun in Hmain.
  simpl in Hmain. rewrite (finalize_without_masks _ Hmasks) in Hmain.
  pose proof (base_report_ok _ _ Hmain) as Hrep.
  split; [rewrite Hrep; reflexivity | ].
  split; [rewrite Hrep; reflexivity | ].
  split; [rewrite Hrep; reflexivity | ].
  split; [rewrite Hrep; reflexivity | exact Hmain].
Qed.


(** C1, as the code has it.  The reported SSIM is the mean over all
    entries of the per-batch SSIM tensors concatenated along the batch
    dimension; each of these tensors keeps one row per image of its
    batch and all have the same number of columns, so every image
    weighs the same whatever batch it is in. *)
Theorem ssim_flat_mean (args : Args) (model : Model) (report : Report) :
  snd (load' args) = Ok model ->
  snd (cli_main' args) = Ok report ->
  let ssims :=
    map (fun b => batch_ssim ssim_loss b (output_of model b)) (seen args) in
  Dict.get "ssim" report = Some (mean (concat (map mdata ssims))) /\
  Forall (fun b =>
            rows (batch_ssim ssim_loss b (output_of model b))
            = dim4_0 (ssim_loss (output_of model b) (target b) (max_value b)))
         (seen args) /\
  (exists width, Forall (fun ssim => cols ssim = width) ssims).
Proof.
  intros Hload Hmain ssims.
  rewrite (cli_main_loaded _ _ Hload) in Hmain.
  apply evaluate_ok in Hmain. destruct Hmain as [st [Hrun Hfin]].
  destruct (finalize_ok_base _ _ Hfin) as [Hs _].
  destruct (finalize_ok_cat _ _ Hfin) as [ssim_tensor Hcat].
  destruct (run_steps_metrics _ _ _ _ _ _ _ _ _ Hrun) as [Hss _].
  simpl in Hss. rewrite Hs, Hss. split; [reflexivity | ].
  split.
  - apply Forall_forall. intros b _. reflexivity.
  - exists (cols ssim_tensor). rewrite Hss in Hcat.
    exact (proj2 (proj2 (cat_ok_data _ _ Hcat))).
Qed.

Lemma is_ok_raise {A : Type} (r : result A) (e : exn) :
  r = Raise e -> is_ok r = false.
Proof. intros ->. reflexivity. Qed.

Lemma step_raise (model : Model) (batch : Batch) (e : exn) :
  (forall masks,
      save_prob_masks model (extra_of model batch) masks = Raise e) ->
  forall st, step' model batch st = Raise e.
Proof.
  intros Hsave st. rewrite step_eq, Hsave. reflexivity.
Qed.

(** A batch whose step always raises [e] ends the run with [e] once the
    batches before it are through, and never lets the run succeed. *)
Lemma cli_main_failing_batch (args : Args) (model : Model) (batch : Batch)
    (e : exn) :
  snd (load' args) = Ok model ->
  In batch (seen args) ->
  (forall st, step' model batch st = Raise e) ->
  is_ok (snd (cli_main' args)) = false /\
  (forall pre post st,
      seen args = pre ++ batch :: post ->
      run_steps' model pre init_state = Ok st ->
      snd (cli_main' args) = Raise e).
Proof.
  intros Hload Hin Hstep.
  rewrite (cli_main_loaded _ _ Hload), evaluate_eq. split.
  - pose proof (run_steps_failing_batch _ _ psnr nmse ssim_loss model
                  (seen args) batch Hin
                  (fun st => is_ok_raise _ _ (Hstep st)) init_state) as Hfail.
    destruct (run_steps' model (seen args) init_state); simpl in *;
      [discriminate | reflexivity].
  - intros pre post st Hsplit Hpre.
    rewrite Hsplit, run_steps_app, Hpre. simpl. rewrite Hstep. reflexivity.
Qed.

(** C7.  A batch whose auxiliary outputs hold more than one probability
    mask under ["prob_masks"] fails the assertion on the length of that
    list: no mask of the batch is indexed or stored, and the run ends
    with the assertion error. *)
Theorem multiple_policies_fatal (args : Args) (model : Model) (batch : Batch)
    (prob_masks_list : list Tensor5) :
  snd (load' args) = Ok model ->
  In batch (seen args) ->
  Dict.get "prob_masks" (extra_of model batch) = Some prob_masks_list ->
  (1 < length prob_masks_list)%nat ->
  (forall masks,
      save_prob_masks model (extra_of model batch) masks
      = Raise (AssertionError MultiplePolicies)) /\
  (forall st, step' model batch st = Raise (AssertionError MultiplePolicies)) /\
  is_ok (snd (cli_main' args)) = false /\
  (forall pre post st,
      seen args = pre ++ batch :: post ->
      run_steps' model pre init_state = Ok st ->
      snd (cli_main' args) = Raise (AssertionError MultiplePolicies)).
Proof.
  intros Hload Hin Hget Hlen.
  assert (Hsave : forall masks,
             save_prob_masks model (extra_of model batch) masks
             = Raise (AssertionError MultiplePolicies)).
  { intros masks. unfold save_prob_masks. rewrite Hget.
    destruct (Nat.eqb_spec (length prob_masks_list) 1) as [Heq | _];
      [lia | reflexivity]. }
  split; [exact Hsave | ].
  split; [exact (step_raise _ _ _ Hsave) | ].
  exact (cli_main_failing_batch _ _ _ _ Hload Hin (step_raise _ _ _ Hsave)).
Qed.

(** The budget check as it is written.  For a batch that carries one
    probability mask, the sum of the first row of the mask is compared
    with the budget by [np.isclose]; when that sum is further from the
    budget than the tolerance the assertion fails and the run ends,
    otherwise the whole mask of the batch is stored. *)
Theorem first_row_budget_check (args : Args) (model : Model) (batch : Batch)
    (t : Tensor5) (m : Matrix) :
  snd (load' args) = Ok model ->
  In batch (seen args) ->
  Dict.get "prob_masks" (extra_of model batch) = Some [t] ->
  index_00_0 t = Ok m ->
  (0 < rows m)%nat ->
  (forall masks,
      save_prob_masks model (extra_of model batch) masks
      = if isclose (sum (mrow m 0)) (Finite (IZR (budget model)))
        then Ok (masks ++ [m])
        else Raise (AssertionError
                      (BudgetMismatch (budget model) (sum (mrow m 0))))) /\
  (forall s : R,
      sum (mrow m 0) = Finite s ->
      (Rabs (s - IZR (budget model))
       > atol + rtol * Rabs (IZR (budget model)))%R ->
      (forall st,
          step' model batch st
          = Raise (AssertionError (BudgetMismatch (budget model) (Finite s)))) /\
      is_ok (snd (cli_main' args)) = false).
Proof.
  intros Hload Hin Hget Hidx Hrows.
  assert (Hsave : forall masks,
             save_prob_masks model (extra_of model batch) masks
             = if isclose (sum (mrow m 0)) (Finite (IZR (budget model)))
               then Ok (masks ++ [m])
               else Raise (AssertionError
                             (BudgetMismatch (budget model) (sum (mrow m 0))))).
  { intros masks.
    exact (save_prob_masks_single _ _ model _ masks t m Hget Hidx Hrows). }
  split; [exact Hsave | ].
  intros s Hs Hfar.
  assert (Hraise : forall masks,
             save_prob_masks model (extra_of model batch) masks
             = Raise (AssertionError (BudgetMismatch (budget model) (Finite s)))).
  { intros masks. rewrite Hsave, Hs, (isclose_far _ _ Hfar). reflexivity. }
  split; [exact (step_raise _ _ _ Hraise) | ].
  exact (proj1 (cli_main_failing_batch _ _ _ _ Hload Hin
                  (step_raise _ _ _ Hraise))).
Qed.

(** C8, as the code has it.  [load_model] is called with
    [AdaptiveVarNetModule] first.  It is called with [VarNetModule]
    exactly when that first call raised a [RuntimeError], which a
    weight/class mismatch does, and then once only: whatever the second
    call returns or raises is the outcome, and an error of it ends
    [cli_main]. *)
Theorem fallback_tried_once (args : Args) :
  let fname := load_checkpoint args in
  let first :=
    load_model torch_load construct load_state_dict
      AdaptiveVarNetModule fname in
  let second :=
    load_model torch_load construct load_state_dict VarNetModule fname in
  let calls := fst (load' args) in
  hd_error calls = Some AdaptiveVarNetModule /\
  (In VarNetModule calls <-> first = Raise RuntimeError) /\
  (first = Raise RuntimeError ->
   calls = [AdaptiveVarNetModule; VarNetModule] /\
   snd (load' args) = second /\
   (forall e, second = Raise e -> snd (cli_main' args) = Raise e)) /\
  (first <> Raise RuntimeError ->
   calls = [AdaptiveVarNetModule] /\ snd (load' args) = first) /\
  (weight_class_mismatch torch_load construct load_state_dict
     AdaptiveVarNetModule fname ->
   first = Raise RuntimeError) /\
  fst (cli_main' args) = calls.
Proof.
  cbv zeta. unfold cli_main, load_with_fallback, weight_class_mismatch.
  destruct (load_model torch_load construct load_state_dict
              AdaptiveVarNetModule (load_checkpoint args))
    as [model | e] eqn:Hfirst.
  - cbn [fst snd hd_error In].
    split; [reflexivity | ].
    split; [split; [intros [Hin | []]; discriminate | discriminate] | ].
    split; [discriminate | ].
    split; [intros _; split; reflexivity | ].
    split; [ | reflexivity].
    intros [checkpoint [module [Ht [Hc Hl]]]]. unfold load_model in Hfirst.
    rewrite Ht in Hfirst. cbn [bind] in Hfirst.
    rewrite Hc in Hfirst. cbn [bind] in Hfirst.
    rewrite Hl in Hfirst. discriminate.
  - assert (Hmismatch :
              (exists checkpoint module,
                  torch_load (load_checkpoint args) = Ok checkpoint /\
                  construct AdaptiveVarNetModule (hyper_parameters checkpoint)
                  = Ok module /\
                  load_state_dict module (state_dict checkpoint)
                  = Raise RuntimeError) ->
              Raise e = Raise RuntimeError :> result Model).
    { intros [checkpoint [module [Ht [Hc Hl]]]]. unfold load_model in Hfirst.
      rewrite Ht in Hfirst. cbn [bind] in Hfirst.
      rewrite Hc in Hfirst. cbn [bind] in Hfirst.
      rewrite Hl in Hfirst. cbn [bind] in Hfirst.
      symmetry. exact Hfirst. }
    destruct e as [ | a | | | cls]; cbn [fst snd hd_error In].
    1: { split; [reflexivity | ].
         split; [split; [reflexivity | intros _; right; left; reflexivity] | ].
         split.
         { intros _. split; [reflexivity | ]. split; [reflexivity | ].
           intros e He. rewrite He. reflexivity. }
         split; [intros Hne; contradiction | ].
         split; [exact Hmismatch | reflexivity]. }
    all: split; [reflexivity | ].
    all: split; [split; [intros [Hin | []]; discriminate | discriminate] | ].
    all: split; [discriminate | ].
    all: split; [intros _; split; reflexivity | ].
    all: split; [exact Hmismatch | reflexivity].
Qed.


(** C3.  From the stack [pm] of all collected mask rows (the masks of
    the batches one below the other, [N] rows of length [L])
    [cli_main] computes: the marginal probability of line
    [l] as the mean of column [l]; [marg_ent_ind] as the sum over the
    lines of the entropy of the marginal probability; [cond_ent_ind] as
    the mean over the rows of the entropy summed along each row; and
    [mi_ind] as the difference of the two.  For the three masks
    [1,1,0,0], [1,0,1,0], [0,1,1,0] the marginal probabilities are
    [2/3, 2/3, 2/3, 0], [marg_ent_ind] is [3 H(2/3)], [cond_ent_ind] is 0
    and [mi_ind] is [3 H(2/3)]. *)
Theorem mask_entropy_statistics (args : Args) (model : Model) (st : State)
    (pm : Matrix) (report : Report) :
  snd (load' args) = Ok model ->
  run_steps' model (seen args) init_state = Ok st ->
  all_prob_masks st <> [] ->
  cat (all_prob_masks st) = Ok pm ->
  snd (cli_main' args) = Ok report ->
  let N := rows pm in
  let L := cols pm in
  let marginal_probability :=
    fun l => mean (map (fun n => mget pm n l) (seq 0 N)) in
  let marg_ent_ind :=
    sum (map (fun l => entropy_entry (marginal_probability l)) (seq 0 L)) in
  let avg_cond_entropy :=
    mean (map (fun n =>
                 sum (map (fun l => entropy_entry (mget pm n l)) (seq 0 L)))
              (seq 0 N)) in
  (N = list_sum (map rows (all_prob_masks st)) /\
   mdata pm = concat (map mdata (all_prob_masks st)) /\
   mdata (mean_dim0_keepdim pm) = map marginal_probability (seq 0 L) /\
   Dict.get "marg_ent_ind" report = Some marg_ent_ind /\
   Dict.get "cond_ent_ind" report = Some avg_cond_entropy /\
   Dict.get "mi_ind" report = Some (sub marg_ent_ind avg_cond_entropy)) /\
  (pm = Examples.three_masks ->
   mdata (mean_dim0_keepdim pm)
   = [Finite (2 / 3); Finite (2 / 3); Finite (2 / 3); Finite 0] /\
   Dict.get "marg_ent_ind" report = Some (Finite (3 * H (2 / 3))) /\
   Dict.get "cond_ent_ind" report = Some (Finite 0) /\
   Dict.get "mi_ind" report = Some (Finite (3 * H (2 / 3))))%R.
Proof.
  intros Hload Hrun Hne Hcat Hmain. cbv zeta.
  rewrite (cli_main_loaded _ _ Hload), evaluate_eq, Hrun in Hmain.
  cbn [bind] in Hmain.
  destruct (base_report st) as [base | e] eqn:Hbase;
    [ | rewrite (finalize_base_raise _ _ Hbase) in Hmain; discriminate].
  rewrite (finalize_with_masks st base pm Hbase Hne Hcat) in Hmain.
  injection Hmain as <-. rewrite (base_report_ok _ _ Hbase).
  cbn [Dict.update Dict.set Dict.get fold_left fst snd String.eqb
         Ascii.eqb Bool.eqb].
  split.
  - destruct (cat_ok_data _ _ Hcat) as [Hdata [Hrows _]].
    rewrite marg_entropy_eq, sum_dim1_entropy.
    split; [exact Hrows | ]. split; [exact Hdata | ]. repeat split.
  - intros ->.
    rewrite three_masks_marg_entropy, three_masks_cond_entropy,
      three_masks_marginal.
    repeat split. cbn [sub neg add]. do 2 f_equal. lra.
Qed.

End CliFacts.

(** ** Concrete runs *)

Section ConcreteRuns.

Import Examples.
Local Open Scope R_scope.

Local Abbreviation pixel_steps :=
  (run_steps pixel_psnr pixel_nmse pixel_ssim_loss).

(** Evaluates the two sides of the budget comparison and closes it when
    they are equal. *)
Ltac budget_check_passes :=
  match goal with
  | |- context [isclose ?a ?b] =>
      let a' := eval cbn in a in
      let b' := eval cbn in b in
      change (isclose a b) with (isclose a' b');
      rewrite isclose_exact by lra
  end.

Lemma ok_not_raise (A : Type) (a : A) (e : exn) : Ok a <> Raise e.
Proof. discriminate. Qed.

Lemma off_budget_far :
  Rabs (0 + 1 + 0 + 0 + 0 - IZR 2) > atol + rtol * Rabs (IZR 2).
Proof.
  replace (0 + 1 + 0 + 0 + 0 - IZR 2) with (- (1)) by lra.
  rewrite Rabs_Ropp, Rabs_R1, (Rabs_pos_eq 2) by lra.
  unfold atol, rtol. lra.
Qed.

Lemma second_row_far :
  Rabs (0 + 0 + 0 - IZR 2) > atol + rtol * Rabs (IZR 2).
Proof.
  replace (0 + 0 + 0 - IZR 2) with (- (2)) by lra.
  rewrite Rabs_Ropp, (Rabs_pos_eq 2) by lra.
  unfold atol, rtol. lra.
Qed.

(** The run of the two-row model on one batch of two images. *)
Lemma two_row_run :
  exists st,
    pixel_steps two_row_model [batch_of_2] init_state = Ok st /\
    all_prob_masks st
    = [mkMatrix 2 2 [Finite 1; Finite 1; Finite 0; Finite 0]] /\
    exists report, finalize st = Ok report.
Proof.
  unfold run_steps. rewrite step_eq.
  erewrite save_prob_masks_single;
    [ | reflexivity | reflexivity | cbn; lia ].
  budget_check_passes.
  cbn [bind]. eexists. split; [reflexivity | ].
  split; [reflexivity | ].
  apply finalize_succeeds.
  - discriminate.
  - discriminate.
  - reflexivity.
  - right. reflexivity.
Qed.

(** The run of the policy model on the three one-mask batches. *)
Lemma mask_batches_run :
  exists st,
    pixel_steps policy_model mask_batches init_state = Ok st /\
    all_prob_masks st <> [] /\
    cat (all_prob_masks st) = Ok three_masks /\
    exists report, finalize st = Ok report.
Proof.
  unfold mask_batches, run_steps.
  rewrite step_eq.
  erewrite save_prob_masks_single;
    [ | reflexivity | reflexivity | cbn; lia ].
  budget_check_passes. cbn [bind].
  rewrite step_eq.
  erewrite save_prob_masks_single;
    [ | reflexivity | reflexivity | cbn; lia ].
  budget_check_passes. cbn [bind].
  rewrite step_eq.
  erewrite save_prob_masks_single;
    [ | reflexivity | reflexivity | cbn; lia ].
  budget_check_passes. cbn [bind].
  eexists. split; [reflexivity | ].
  split; [discriminate | ].
  split; [reflexivity | ].
  apply finalize_succeeds.
  - discriminate.
  - discriminate.
  - reflexivity.
  - right. reflexivity.
Qed.

Local Abbreviation plain_run batches args :=
  (pixel_cli_main VarNetModule policy_model batches args).

Local Abbreviation policy_run policy batches args :=
  (pixel_cli_main AdaptiveVarNetModule policy batches args).

(** The report of the plain model on the batches of sizes 2 and 3. *)
Lemma plain_run_report :
  exists report,
    snd (plain_run [batch_of_2; batch_of_3] args_val) = Ok report.
Proof.
  eexists. cbv -[Rplus Rminus Rmult Rdiv Ropp Rinv INR IZR]. reflexivity.
Qed.

Lemma ssim_flat_mean_witness :
  exists report,
    snd (plain_run [batch_of_2; batch_of_3] args_val) = Ok report /\
    Dict.get "ssim" report
    = Some (mean (concat
                    (map mdata
                       [batch_ssim pixel_ssim_loss batch_of_2 [1; 1];
                        batch_ssim pixel_ssim_loss batch_of_3 [0; 0; 0]]))).
Proof.
  destruct plain_run_report as [report Hreport].
  exists report. split; [exact Hreport | ].
  exact (proj1 (ssim_flat_mean R (list R) unit module_class
                  pixel_psnr pixel_nmse pixel_ssim_loss
                  (torch_load_saved VarNetModule)
                  (construct_from policy_model plain_model)
                  load_state_dict_checked [batch_of_2; batch_of_3] []
                  args_val plain_model report eq_refl Hreport)).
Defined.

(** C1, as the specification states it, fails: on batches of sizes 2 and
    3 whose batch-level SSIM means are 1 and 0, the reported SSIM is the
    flat mean 2/5 over the five images, not the mean 1/2 of the two
    batch-level means. *)
Lemma ssim_not_mean_of_batch_means :
  exists report,
    snd (plain_run [batch_of_2; batch_of_3] args_val) = Ok report /\
    mean_all (batch_ssim pixel_ssim_loss batch_of_2 [1; 1]) = Finite 1 /\
    mean_all (batch_ssim pixel_ssim_loss batch_of_3 [0; 0; 0]) = Finite 0 /\
    mean_of_batch_means
      [batch_ssim pixel_ssim_loss batch_of_2 [1; 1];
       batch_ssim pixel_ssim_loss batch_of_3 [0; 0; 0]]
    = Finite (1 / 2) /\
    Dict.get "ssim" report = Some (Finite (2 / 5)) /\
    Dict.get "ssim" report
    <> Some (mean_of_batch_means
               [batch_ssim pixel_ssim_loss batch_of_2 [1; 1];
                batch_ssim pixel_ssim_loss batch_of_3 [0; 0; 0]]).
Proof.
  destruct plain_run_report as [report Hreport].
  exists report. split; [exact Hreport | ].
  cbv -[Rplus Rminus Rmult Rdiv Ropp Rinv INR IZR] in Hreport.
  injection Hreport as <-.
  assert (Ha : mean_all (batch_ssim pixel_ssim_loss batch_of_2 [1; 1])
               = Finite 1).
  { cbn. f_equal. lra. }
  assert (Hb : mean_all (batch_ssim pixel_ssim_loss batch_of_3 [0; 0; 0])
               = Finite 0).
  { cbn. f_equal. lra. }
  assert (Hm : mean_of_batch_means
                 [batch_ssim pixel_ssim_loss batch_of_2 [1; 1];
                  batch_ssim pixel_ssim_loss batch_of_3 [0; 0; 0]]
               = Finite (1 / 2)).
  { unfold mean_of_batch_means. cbn [map]. rewrite Ha, Hb.
    cbn. f_equal. lra. }
  split; [exact Ha | ]. split; [exact Hb | ]. split; [exact Hm | ].
  rewrite Hm. cbn [Dict.get String.eqb Ascii.eqb Bool.eqb].
  split.
  - do 2 f_equal. lra.
  - intros Heq. injection Heq as Heq. lra.
Qed.


Lemma plain_run_state :
  exists st,
    pixel_steps plain_model [batch_of_2; batch_of_3] init_state = Ok st /\
    all_prob_masks st = [].
Proof.
  eexists. split.
  - apply run_steps_without_masks. intros b _. reflexivity.
  - reflexivity.
Qed.

Lemma report_without_masks_witness :
  exists report,
    snd (plain_run [batch_of_2; batch_of_3] args_val) = Ok report /\
    Dict.keys report = ["ssim"; "psnr"; "nmse"]%string.
Proof.
  destruct plain_run_report as [report Hreport].
  destruct plain_run_state as [st [Hrun Hmasks]].
  exists report. split; [exact Hreport | ].
  exact (proj1 (report_without_masks R (list R) unit module_class
                  pixel_psnr pixel_nmse pixel_ssim_loss
                  (torch_load_saved VarNetModule)
                  (construct_from policy_model plain_model)
                  load_state_dict_checked [batch_of_2; batch_of_3] []
                  args_val plain_model st report eq_refl Hrun Hmasks
                  Hreport)).
Defined.

Lemma zero_batches_no_report_witness :
  snd (plain_run [batch_of_2; batch_of_3] args_cap0) = Raise ValueError /\
  snd (plain_run [] args_val) = Raise ValueError.
Proof.
  split.
  - exact (proj2 (proj2 (proj2
             (zero_batches_no_report R (list R) unit module_class
                pixel_psnr pixel_nmse pixel_ssim_loss
                (torch_load_saved VarNetModule)
                (construct_from policy_model plain_model)
                load_state_dict_checked [batch_of_2; batch_of_3] []
                args_cap0 plain_model eq_refl (or_intror eq_refl))))).
  - exact (proj2 (proj2 (proj2
             (zero_batches_no_report R (list R) unit module_class
                pixel_psnr pixel_nmse pixel_ssim_loss
                (torch_load_saved VarNetModule)
                (construct_from policy_model plain_model)
                load_state_dict_checked [] []
                args_val plain_model eq_refl (or_introl eq_refl))))).
Defined.

Lemma multiple_policies_fatal_witness :
  snd (policy_run two_policies_model [batch_mask [1; 1; 0; 0]] args_val)
  = Raise (AssertionError MultiplePolicies).
Proof.
  exact (proj2 (proj2 (proj2
           (multiple_policies_fatal R (list R) unit module_class
              pixel_psnr pixel_nmse pixel_ssim_loss
              (torch_load_saved AdaptiveVarNetModule)
              (construct_from two_policies_model plain_model)
              load_state_dict_checked [batch_mask [1; 1; 0; 0]] []
              args_val two_policies_model (batch_mask [1; 1; 0; 0])
              _ eq_refl (or_introl eq_refl) eq_refl (le_n 2))))
           [] [] init_state eq_refl eq_refl).
Defined.

Lemma first_row_budget_check_witness :
  is_ok (snd (policy_run policy_model [batch_off_budget] args_val)) = false.
Proof.
  exact (proj2
           (proj2
              (first_row_budget_check R (list R) unit module_class
                 pixel_psnr pixel_nmse pixel_ssim_loss
                 (torch_load_saved AdaptiveVarNetModule)
                 (construct_from policy_model plain_model)
                 load_state_dict_checked [batch_off_budget] []
                 args_val policy_model batch_off_budget
                 _ _ eq_refl (or_introl eq_refl) eq_refl eq_refl (le_n 1))
              (0 + 1 + 0 + 0 + 0) eq_refl off_budget_far)).
Defined.

(** C2.  Every row of a mask is to sum to the budget, as the comment of
    [cli_main] on the collected masks says, but only row 0 is checked.
    For a mask with two rows whose first row sums to the budget 2 and
    whose second row sums to 0, further from the budget than the
    tolerance, no assertion fails: the mask is collected and the run
    produces a report. *)
Lemma unchecked_second_row :
  exists m st report,
    index_00_0 (mkTensor5 2 1 1 2 1 (map Finite [1; 1; 0; 0])) = Ok m /\
    rows m = 2%nat /\
    sum (mrow m 0) = Finite (0 + 1 + 1) /\
    sum (mrow m 1) = Finite (0 + 0 + 0) /\
    Rabs (0 + 0 + 0 - IZR (budget two_row_model))
    > atol + rtol * Rabs (IZR (budget two_row_model)) /\
    pixel_steps two_row_model [batch_of_2] init_state = Ok st /\
    all_prob_masks st = [m] /\
    snd (policy_run two_row_model [batch_of_2] args_val) = Ok report.
Proof.
  destruct two_row_run as [st [Hrun [Hmasks [report Hreport]]]].
  eexists. exists st, report.
  split; [reflexivity | ].
  split; [reflexivity | ].
  split; [reflexivity | ].
  split; [reflexivity | ].
  split; [exact second_row_far | ].
  split; [exact Hrun | ].
  split; [exact Hmasks | ].
  unfold pixel_cli_main.
  rewrite (cli_main_loaded R (list R) unit module_class
             pixel_psnr pixel_nmse pixel_ssim_loss
             (torch_load_saved AdaptiveVarNetModule)
             (construct_from two_row_model plain_model)
             load_state_dict_checked [batch_of_2] [] args_val two_row_model
             eq_refl).
  rewrite evaluate_eq.
  change (processed (num_batches args_val) 0
            (data_loader [batch_of_2] [] args_val)) with [batch_of_2].
  rewrite Hrun. exact Hreport.
Qed.

Lemma mask_entropy_statistics_witness :
  exists report,
    snd (policy_run policy_model mask_batches args_val) = Ok report /\
    Dict.get "marg_ent_ind" report = Some (Finite (3 * H (2 / 3))) /\
    Dict.get "cond_ent_ind" report = Some (Finite 0) /\
    Dict.get "mi_ind" report = Some (Finite (3 * H (2 / 3))).
Proof.
  destruct mask_batches_run as [st [Hrun [Hne [Hcat [report Hfin]]]]].
  assert (Hmain : snd (policy_run policy_model mask_batches args_val)
                  = Ok report).
  { unfold pixel_cli_main.
    rewrite (cli_main_loaded R (list R) unit module_class
               pixel_psnr pixel_nmse pixel_ssim_loss
               (torch_load_saved AdaptiveVarNetModule)
               (construct_from policy_model plain_model)
               load_state_dict_checked mask_batches [] args_val policy_model
               eq_refl).
    rewrite evaluate_eq.
    change (processed (num_batches args_val) 0
              (data_loader mask_batches [] args_val)) with mask_batches.
    rewrite Hrun. exact Hfin. }
  exists report. split; [exact Hmain | ].
  exact (proj2 (proj2
           (mask_entropy_statistics R (list R) unit module_class
              pixel_psnr pixel_nmse pixel_ssim_loss
              (torch_load_saved AdaptiveVarNetModule)
              (construct_from policy_model plain_model)
              load_state_dict_checked mask_batches [] args_val policy_model
              st three_masks report eq_refl Hrun Hne Hcat Hmain)
           eq_refl)).
Defined.

(** C8, as the specification states it, fails: when the checkpoint file
    cannot be read, [torch.load] raises a [RuntimeError]; no module is
    built and no weights are compared, yet [VarNetModule] is tried. *)
Lemma fallback_without_mismatch :
  fst (cli_main pixel_psnr pixel_nmse pixel_ssim_loss torch_load_unreadable
         (construct_from policy_model plain_model) load_state_dict_checked
         [batch_of_2; batch_of_3] [] args_val)
  = [AdaptiveVarNetModule; VarNetModule] /\
  snd (cli_main pixel_psnr pixel_nmse pixel_ssim_loss torch_load_unreadable
         (construct_from policy_model plain_model) load_state_dict_checked
         [batch_of_2; batch_of_3] [] args_val)
  = Raise RuntimeError /\
  ~ weight_class_mismatch torch_load_unreadable
      (construct_from policy_model plain_model) load_state_dict_checked
      AdaptiveVarNetModule (load_checkpoint args_val).
Proof.
  split; [reflexivity | ]. split; [reflexivity | ].
  intros [checkpoint [module [Hload _]]]. discriminate.
Qed.

Lemma fallback_tried_once_witness :
  fst (plain_run [batch_of_2; batch_of_3] args_val)
  = [AdaptiveVarNetModule; VarNetModule] /\
  fst (policy_run policy_model mask_batches args_val)
  = [AdaptiveVarNetModule].
Proof.
  split.
  - exact (proj1
             (proj1 (proj2 (proj2
                (fallback_tried_once R (list R) unit module_class
                   pixel_psnr pixel_nmse pixel_ssim_loss
                   (torch_load_saved VarNetModule)
                   (construct_from policy_model plain_model)
                   load_state_dict_checked [batch_of_2; batch_of_3] []
                   args_val)))
                eq_refl)).
  - exact (proj1
             (proj1 (proj2 (proj2 (proj2
                (fallback_tried_once R (list R) unit module_class
                   pixel_psnr pixel_nmse pixel_ssim_loss
                   (torch_load_saved AdaptiveVarNetModule)
                   (construct_from policy_model plain_model)
                   load_state_dict_checked mask_batches []
                   args_val))))
                (ok_not_raise _ policy_model RuntimeError))).
Defined.

End ConcreteRuns.

(** * Further properties *)

(** ** [str2bool] *)

Section Str2boolFacts.

Lemma lower_upper_ascii (c : ascii) :
  lower_ascii (upper_ascii c) = lower_ascii c.
Proof.
  destruct c as [[] [] [] [] [] [] [] []]; reflexivity.
Qed.

Lemma lower_lower_ascii (c : ascii) :
  lower_ascii (lower_ascii c) = lower_ascii c.
Proof.
  destruct c as [[] [] [] [] [] [] [] []]; reflexivity.
Qed.

Lemma lower_upper (s : string) : lower (upper s) = lower s.
Proof.
  induction s as [ | c s IH]; simpl.
  - reflexivity.
  - rewrite lower_upper_ascii, IH. reflexivity.
Qed.

Lemma lower_lower (s : string) : lower (lower s) = lower s.
Proof.
  induction s as [ | c s IH]; simpl.
  - reflexivity.
  - rewrite lower_lower_ascii, IH. reflexivity.
Qed.

Lemma length_lower (s : string) : String.length (lower s) = String.length s.
Proof.
  induction s as [ | c s IH]; simpl.
  - reflexivity.
  - rewrite IH. reflexivity.
Qed.

Lemma lower_keeps_blank (s : string) :
  In " "%char (list_ascii_of_string s) ->
  In " "%char (list_ascii_of_string (lower s)).
Proof.
  induction s as [ | c s IH]; simpl.
  - intros [].
  - intros [-> | Hin].
    + left. reflexivity.
    + right. apply IH. exact Hin.
Qed.

Lemma in_words_In (s : string) (words : list string) :
  in_words s words = true -> In s words.
Proof.
  unfold in_words. intros Hex. apply existsb_exists in Hex.
  destruct Hex as [w [Hw Heq]]. apply String.eqb_eq in Heq. subst w.
  exact Hw.
Qed.

(** What the ten accepted words have in common. *)
Lemma accepted_word_shape (w : string) :
  In w (true_words ++ false_words) ->
  String.length w <= 5 /\ ~ In " "%char (list_ascii_of_string w).
Proof.
  intros Hin. simpl in Hin.
  repeat (destruct Hin as [<- | Hin];
          [split; [simpl; lia | simpl; intuition discriminate] | ]).
  contradiction.
Qed.

Lemma str2bool_ok_word (s : string) (b : bool) :
  str2bool (PyStr s) = Ok b -> In (lower s) (true_words ++ false_words).
Proof.
  unfold str2bool. intros Hok. apply in_or_app.
  destruct (in_words (lower s) true_words) eqn:Ht.
  - left. apply in_words_In. exact Ht.
  - destruct (in_words (lower s) false_words) eqn:Hf.
    + right. apply in_words_In. exact Hf.
    + discriminate.
Qed.

(** X1.  On strings of ASCII characters [str2bool] does not look at the
    case of the letters: such a string, its upper-case form and its
    lower-case form are all read alike; so the printed form [str(b)] of
    a Boolean is read back as [b]. *)
Theorem str2bool_case_insensitive (s : string) :
  ascii_only s ->
  str2bool (PyStr (upper s)) = str2bool (PyStr s) /\
  str2bool (PyStr (lower s)) = str2bool (PyStr s) /\
  (forall b : bool, str2bool (PyStr (py_str_of_bool b)) = Ok b).
Proof.
  intros _. unfold str2bool. rewrite lower_upper, lower_lower.
  split; [reflexivity | ]. split; [reflexivity | ].
  intros [ | ]; reflexivity.
Qed.

Lemma ascii_only_yes : ascii_only "yEs".
Proof.
  unfold ascii_only. cbn [list_ascii_of_string].
  repeat constructor; cbn; lia.
Qed.

Lemma str2bool_case_insensitive_witness :
  ascii_only "yEs" /\
  str2bool (PyStr "YES") = str2bool (PyStr "yEs") /\
  str2bool (PyStr "yes") = str2bool (PyStr "yEs").
Proof.
  split; [exact ascii_only_yes | ].
  split.
  - exact (proj1 (str2bool_case_insensitive "yEs" ascii_only_yes)).
  - exact (proj1 (proj2 (str2bool_case_insensitive "yEs" ascii_only_yes))).
Defined.

(** X2.  [str2bool] strips nothing: a string that holds a blank, or more
    than five characters, is none of the accepted words and raises
    [ValueError]. *)
Theorem str2bool_rejects (s : string) :
  In " "%char (list_ascii_of_string s) \/ 5 < String.length s ->
  str2bool (PyStr s) = Raise ValueError.
Proof.
  intros Hbad.
  destruct (str2bool (PyStr s)) as [b | e] eqn:Hres.
  - apply str2bool_ok_word in Hres. apply accepted_word_shape in Hres.
    destruct Hres as [Hlen Hblank]. rewrite length_lower in Hlen.
    destruct Hbad as [Hin | Hlong].
    + exfalso. apply Hblank. apply lower_keeps_blank. exact Hin.
    + lia.
  - unfold str2bool in Hres.
    destruct (in_words (lower s) true_words); [discriminate | ].
    destruct (in_words (lower s) false_words); [discriminate | ].
    symmetry. exact Hres.
Qed.

Lemma str2bool_rejects_witness :
  str2bool (PyStr " true") = Raise ValueError /\
  str2bool (PyStr "enable") = Raise ValueError.
Proof.
  split.
  - exact (str2bool_rejects " true" (or_introl (or_introl eq_refl))).
  - apply (str2bool_rejects "enable"). right. simpl. lia.
Defined.

End Str2boolFacts.

(** ** The loop, batch by batch *)

Section MoreLoopFacts.

Variables Image Kspace : Type.
Variable psnr : Image -> Image -> scalar -> scalar.
Variable nmse : Image -> Image -> scalar.
Variable ssim_loss : list Image -> list Image -> list scalar -> Tensor4.
Variables val_dataloader train_dataloader : list (Batch Image Kspace).

Local Abbreviation Batch := (Batch Image Kspace).
Local Abbreviation Model := (Model Image Kspace).
Local Abbreviation step' := (step psnr nmse ssim_loss).
Local Abbreviation run_steps' := (run_steps psnr nmse ssim_loss).
Local Abbreviation eval_loop' := (eval_loop psnr nmse ssim_loss).
Local Abbreviation evaluate' :=
  (evaluate psnr nmse ssim_loss val_dataloader train_dataloader).
Local Abbreviation seen args :=
  (processed (num_batches args) 0
     (data_loader val_dataloader train_dataloader args)).

Lemma processed_from (cap : option Z) (batches : list Batch) :
  forall i : nat,
    processed cap i batches
    = match cap with
      | None => batches
      | Some n =>
          if (Z.of_nat i <=? n)%Z
          then firstn (Z.to_nat n - i) batches
          else batches
      end.
Proof.
  destruct cap as [n | ].
  - induction batches as [ | batch rest IH]; intros i; cbn [processed at_cap].
    + rewrite firstn_nil. destruct (Z.of_nat i <=? n)%Z; reflexivity.
    + rewrite IH.
      destruct (Z.eqb_spec (Z.of_nat i) n) as [Heq | Hne].
      * destruct (Z.leb_spec (Z.of_nat i) n) as [_ | Hlt]; [ | lia].
        replace (Z.to_nat n - i)%nat with 0%nat by lia. reflexivity.
      * destruct (Z.leb_spec (Z.of_nat i) n) as [Hle | Hgt].
        -- destruct (Z.leb_spec (Z.of_nat (S i)) n) as [_ | Hlt]; [ | lia].
           replace (Z.to_nat n - i)%nat with (S (Z.to_nat n - S i)) by lia.
           reflexivity.
        -- destruct (Z.leb_spec (Z.of_nat (S i)) n) as [Hle | _]; [lia | ].
           reflexivity.
  - induction batches as [ | batch rest IH]; intros i; cbn [processed at_cap].
    + reflexivity.
    + rewrite IH. reflexivity.
Qed.

(** X3.  The loop body runs on the first [n] batches when the cap is a
    number [n >= 0], and on all batches when there is no cap or the cap
    is negative; a cap at or above the number of batches changes
    nothing. *)
Theorem loop_cap (model : Model) (cap : option Z) (batches : list Batch)
    (st : State) :
  eval_loop' model cap 0 batches st
  = run_steps' model
      (match cap with
       | None => batches
       | Some n => if (0 <=? n)%Z then firstn (Z.to_nat n) batches
                   else batches
       end) st /\
  (forall n : Z,
      (Z.of_nat (length batches) <= n)%Z ->
      eval_loop' model (Some n) 0 batches st
      = eval_loop' model None 0 batches st).
Proof.
  split.
  - rewrite eval_loop_processed, processed_from.
    destruct cap as [n | ]; [ | reflexivity].
    change (Z.of_nat 0) with 0%Z. rewrite Nat.sub_0_r. reflexivity.
  - intros n Hn. rewrite !eval_loop_processed, !processed_from.
    change (Z.of_nat 0) with 0%Z. rewrite Nat.sub_0_r.
    destruct (Z.leb_spec 0 n) as [_ | Hneg]; [ | lia].
    rewrite firstn_all2 by lia. reflexivity.
Qed.

Lemma length_zip3 (gts recs : list Image) (maxvals : list scalar) :
  length (zip3 gts recs maxvals)
  = Nat.min (length gts) (Nat.min (length recs) (length maxvals)).
Proof.
  revert recs maxvals.
  induction gts as [ | gt gts IH]; intros recs maxvals.
  - reflexivity.
  - destruct recs as [ | rec recs]; [cbn [zip3 length]; lia | ].
    destruct maxvals as [ | maxval maxvals]; cbn [zip3 length].
    + lia.
    + rewrite IH. lia.
Qed.

Lemma length_flat_map_sum {A B : Type} (f : A -> list B) (l : list A) :
  length (flat_map f l) = list_sum (map (fun a => length (f a)) l).
Proof.
  induction l as [ | a l IH]; simpl.
  - reflexivity.
  - rewrite length_app, IH. reflexivity.
Qed.

(** X4.  After a loop that went through, there is one SSIM tensor per
    batch the body ran on, and the PSNR and NMSE sequences have the
    same length: per batch, the length of the shortest of [target],
    [output] and [max_value], as [zip] stops there. *)
Theorem sample_counts (model : Model) (args : Args) (st : State) :
  eval_loop' model (num_batches args) 0
    (data_loader val_dataloader train_dataloader args) init_state = Ok st ->
  length (all_ssims st) = length (seen args) /\
  length (all_psnrs st) = length (all_nmses st) /\
  length (all_psnrs st)
  = list_sum
      (map (fun b =>
              Nat.min (length (target b))
                (Nat.min (length (output_of model b))
                   (length (max_value b))))
         (seen args)).
Proof.
  rewrite eval_loop_processed. intros Hrun.
  destruct (run_steps_metrics _ _ _ _ _ _ _ _ _ Hrun) as [Hs [Hp Hn]].
  simpl in Hs, Hp, Hn. rewrite Hs, Hp, Hn.
  rewrite length_map, !length_flat_map_sum.
  unfold batch_psnrs, batch_nmses.
  split; [reflexivity | ].
  split.
  - f_equal. apply map_ext. intros b. rewrite !length_map. reflexivity.
  - f_equal. apply map_ext. intros b. rewrite length_map.
    apply length_zip3.
Qed.

Lemma list_sum_const {A : Type} (c : nat) (l : list A) :
  list_sum (map (fun _ => c) l) = (length l * c)%nat.
Proof.
  induction l as [ | a l IH]; simpl.
  - reflexivity.
  - rewrite IH. reflexivity.
Qed.

Lemma index_00_0_ok (t : Tensor5) (m : Matrix) :
  index_00_0 t = Ok m ->
  wf m /\ rows m = dim5_0 t /\ cols m = dim5_3 t.
Proof.
  unfold index_00_0.
  destruct (Nat.eqb (dim5_1 t) 0 || Nat.eqb (dim5_2 t) 0
            || Nat.eqb (dim5_4 t) 0)%bool; [discriminate | ].
  intros Hm. injection Hm as <-. unfold wf. cbn [mdata rows cols].
  split; [ | split; reflexivity].
  rewrite length_flat_map_sum.
  rewrite (map_ext _ (fun _ => dim5_3 t))
    by (intros b; rewrite length_map, length_seq; reflexivity).
  rewrite list_sum_const, length_seq. reflexivity.
Qed.

(** What a successful pass through the mask block has done. *)
Lemma save_prob_masks_ok (model : Model) (extra : extra_outputs)
    (masks masks' : list Matrix) :
  save_prob_masks model extra masks = Ok masks' ->
  (has_prob_masks extra = false /\ masks' = masks) \/
  (has_prob_masks extra = true /\
   exists t m,
     Dict.get "prob_masks" extra = Some [t] /\
     index_00_0 t = Ok m /\
     (0 < rows m)%nat /\
     isclose (sum (mrow m 0)) (Finite (IZR (budget model))) = true /\
     masks' = masks ++ [m]).
Proof.
  unfold save_prob_masks, has_prob_masks, Dict.mem.
  destruct (Dict.get "prob_masks" extra) as [prob_masks_list | ].
  - destruct prob_masks_list as [ | t [ | t' rest]];
      cbn [length Nat.eqb negb nth_error]; try discriminate.
    destruct (index_00_0 t) as [m | e] eqn:Hidx; cbn [bind];
      [ | discriminate].
    unfold first_row.
    destruct (Nat.eqb_spec (rows m) 0) as [Hz | Hnz]; cbn [bind];
      [discriminate | ].
    destruct (isclose (sum (mrow m 0)) (Finite (IZR (budget model))))
      eqn:Hclose; [ | discriminate].
    intros Hok. injection Hok as <-. right. split; [reflexivity | ].
    exists t, m. repeat split; try reflexivity; try assumption. lia.
  - intros Hok. injection Hok as <-. left. split; reflexivity.
Qed.

Lemma run_steps_masks (model : Model) (batches : list Batch) :
  forall st st' : State,
    run_steps' model batches st = Ok st' ->
    exists collected,
      all_prob_masks st' = all_prob_masks st ++ collected /\
      length collected
      = length (filter (fun b => has_prob_masks (extra_of model b)) batches) /\
      Forall (fun m =>
                wf m /\ (0 < rows m)%nat /\
                isclose (sum (mrow m 0)) (Finite (IZR (budget model))) = true)
             collected.
Proof.
  induction batches as [ | batch rest IH]; intros st st' Hrun;
    cbn [run_steps] in Hrun.
  - injection Hrun as <-. exists []. rewrite app_nil_r.
    split; [reflexivity | ]. split; [reflexivity | constructor].
  - apply bind_ok in Hrun. destruct Hrun as [st1 [Hstep Hrest]].
    rewrite step_eq in Hstep. apply bind_ok in Hstep.
    destruct Hstep as [masks [Hsave Hst1]]. injection Hst1 as <-.
    destruct (IH _ _ Hrest) as [collected [Hall [Hlen Hinv]]].
    cbn [all_prob_masks] in Hall. cbn [filter].
    apply save_prob_masks_ok in Hsave.
    destruct Hsave as [[Hhas ->] | [Hhas [t [m [_ [Hidx [Hrows [Hclose ->]]]]]]]];
      rewrite Hhas.
    + exists collected. split; [exact Hall | ]. split; assumption.
    + exists (m :: collected). rewrite Hall, <- app_assoc.
      split; [reflexivity | ].
      split; [cbn [length]; rewrite Hlen; reflexivity | ].
      constructor; [ | exact Hinv].
      split; [exact (proj1 (index_00_0_ok _ _ Hidx)) | ].
      split; assumption.
Qed.

(** X5.  Every mask tensor the loop has collected came from a batch that
    carries the key, is well formed ([rows x cols] entries), has at
    least one row, and its first row passed the budget check; there is
    one collected tensor per such batch. *)
Theorem collected_masks_invariant (model : Model) (args : Args) (st : State) :
  eval_loop' model (num_batches args) 0
    (data_loader val_dataloader train_dataloader args) init_state = Ok st ->
  length (all_prob_masks st)
  = length (filter (fun b => has_prob_masks (extra_of model b)) (seen args)) /\
  Forall (fun m =>
            wf m /\ (0 < rows m)%nat /\
            isclose (sum (mrow m 0)) (Finite (IZR (budget model))) = true)
         (all_prob_masks st).
Proof.
  rewrite eval_loop_processed. intros Hrun.
  destruct (run_steps_masks _ _ _ _ Hrun) as [collected [Hall [Hlen Hinv]]].
  cbn [all_prob_masks init_state app] in Hall. rewrite Hall.
  split; assumption.
Qed.

(** A batch whose step always raises never lets the evaluation return a
    report. *)
Lemma evaluate_failing_batch (model : Model) (args : Args) (batch : Batch)
    (e : exn) :
  In batch (seen args) ->
  (forall st, step' model batch st = Raise e) ->
  is_ok (evaluate' model args) = false.
Proof.
  intros Hin Hstep. unfold evaluate. rewrite eval_loop_processed.
  pose proof (run_steps_failing_batch _ _ psnr nmse ssim_loss model
                (seen args) batch Hin
                (fun st => is_ok_raise _ _ (Hstep st)) init_state) as Hfail.
  destruct (run_steps' model (seen args) init_state); simpl in *;
    [discriminate | reflexivity].
Qed.

Lemma step_of_save (model : Model) (batch : Batch) (e : exn) :
  (forall masks,
      save_prob_masks model (extra_of model batch) masks = Raise e) ->
  forall st, step' model batch st = Raise e.
Proof.
  intros Hsave st. rewrite step_eq, Hsave. reflexivity.
Qed.

(** X6.  The assertion on the number of masks also fires when the key
    ["prob_masks"] is present with an empty list: the batch raises the
    "more than one prob mask" assertion error although it holds none,
    and no report is produced. *)
Theorem empty_mask_list_fatal (model : Model) (args : Args) (batch : Batch) :
  Dict.get "prob_masks" (extra_of model batch) = Some [] ->
  (forall st, step' model batch st = Raise (AssertionError MultiplePolicies)) /\
  (In batch (seen args) -> is_ok (evaluate' model args) = false).
Proof.
  intros Hget.
  assert (Hstep : forall st,
             step' model batch st = Raise (AssertionError MultiplePolicies)).
  { apply step_of_save. intros masks. unfold save_prob_masks.
    rewrite Hget. reflexivity. }
  split; [exact Hstep | ].
  intros Hin. exact (evaluate_failing_batch _ _ _ _ Hin Hstep).
Qed.

(** X7.  A mask tensor that has no index 0 along one of the dimensions
    that [[:, 0, 0, :, 0]] drops, or that has no row, makes its batch
    raise [IndexError]: at the indexing, or at [batch_prob_masks[0]];
    no report is produced. *)
Theorem mask_index_error (model : Model) (args : Args) (batch : Batch)
    (t : Tensor5) :
  Dict.get "prob_masks" (extra_of model batch) = Some [t] ->
  dim5_0 t = 0%nat \/ dim5_1 t = 0%nat \/ dim5_2 t = 0%nat
  \/ dim5_4 t = 0%nat ->
  (forall st, step' model batch st = Raise IndexError) /\
  (In batch (seen args) -> is_ok (evaluate' model args) = false).
Proof.
  intros Hget Hdim.
  assert (Hstep : forall st, step' model batch st = Raise IndexError).
  { apply step_of_save. intros masks. unfold save_prob_masks.
    rewrite Hget. cbn [length Nat.eqb negb nth_error].
    unfold index_00_0.
    destruct (Nat.eqb_spec (dim5_1 t) 0) as [H1 | H1]; [reflexivity | ].
    destruct (Nat.eqb_spec (dim5_2 t) 0) as [H2 | H2]; [reflexivity | ].
    destruct (Nat.eqb_spec (dim5_4 t) 0) as [H4 | H4]; [reflexivity | ].
    cbn [orb bind]. unfold first_row. cbn [rows].
    destruct (Nat.eqb_spec (dim5_0 t) 0) as [H0 | H0]; [reflexivity | ].
    lia. }
  split; [exact Hstep | ].
  intros Hin. exact (evaluate_failing_batch _ _ _ _ Hin Hstep).
Qed.

Lemma fold_add_nan (l : list scalar) : fold_left add l NaN = NaN.
Proof.
  induction l as [ | x l IH]; simpl.
  - reflexivity.
  - exact IH.
Qed.

Lemma add_nan_r (x : scalar) : add x NaN = NaN.
Proof. destruct x; reflexivity. Qed.

(** One not-a-number entry makes a sum not-a-number. *)
Lemma sum_with_nan (l : list scalar) : In NaN l -> sum l = NaN.
Proof.
  unfold sum. generalize (Finite 0). induction l as [ | x l IH];
    intros acc Hin; simpl.
  - contradiction.
  - destruct Hin as [-> | Hin].
    + rewrite add_nan_r. apply fold_add_nan.
    + apply IH. exact Hin.
Qed.

Lemma mean_with_nan (l : list scalar) : In NaN l -> mean l = NaN.
Proof.
  intros Hin. unfold mean. rewrite (sum_with_nan _ Hin). reflexivity.
Qed.

(** X8.  A not-a-number entry in the first row of a mask makes the row
    sum not-a-number, which is close to no budget: the budget assertion
    fails and no report is produced. *)
Theorem nan_mask_fails_budget_check (model : Model) (args : Args)
    (batch : Batch) (t : Tensor5) (m : Matrix) (l : nat) :
  Dict.get "prob_masks" (extra_of model batch) = Some [t] ->
  index_00_0 t = Ok m ->
  (0 < rows m)%nat ->
  (l < cols m)%nat ->
  mget m 0 l = NaN ->
  (forall st,
      step' model batch st
      = Raise (AssertionError (BudgetMismatch (budget model) NaN))) /\
  (In batch (seen args) -> is_ok (evaluate' model args) = false).
Proof.
  intros Hget Hidx Hrows Hl Hnan.
  assert (Hsum : sum (mrow m 0) = NaN).
  { apply sum_with_nan. rewrite <- Hnan. unfold mrow.
    apply in_map. apply in_seq. lia. }
  assert (Hstep : forall st,
             step' model batch st
             = Raise (AssertionError (BudgetMismatch (budget model) NaN))).
  { apply step_of_save. intros masks.
    rewrite (save_prob_masks_single _ _ model _ masks t m Hget Hidx Hrows).
    rewrite Hsum. reflexivity. }
  split; [exact Hstep | ].
  intros Hin. exact (evaluate_failing_batch _ _ _ _ Hin Hstep).
Qed.

End MoreLoopFacts.

(** ** The report *)

Section ReportFacts.

Lemma cat_uniform (ts : list Matrix) (w : nat) :
  ts <> [] ->
  Forall (fun t => cols t = w) ts ->
  cat ts = Ok (mkMatrix (list_sum (map rows ts)) w (concat (map mdata ts))).
Proof.
  intros Hne Hall. unfold cat. destruct ts as [ | t0 rest]; [contradiction | ].
  assert (Hw : cols t0 = w) by (inversion Hall; assumption).
  assert (Hcols : forallb (fun t => Nat.eqb (cols t) (cols t0)) (t0 :: rest)
                  = true).
  { apply forallb_forall. intros t Ht. apply Nat.eqb_eq.
    rewrite Forall_forall in Hall. rewrite (Hall t Ht). symmetry. exact Hw. }
  rewrite Hcols, Hw. reflexivity.
Qed.

Lemma cat_not_uniform (ts : list Matrix) :
  ~ (exists w, Forall (fun t => cols t = w) ts) ->
  cat ts = Raise RuntimeError.
Proof.
  intros Hno. unfold cat. destruct ts as [ | t0 rest]; [reflexivity | ].
  destruct (forallb (fun t => Nat.eqb (cols t) (cols t0)) (t0 :: rest))
    eqn:Hcols; [ | reflexivity].
  exfalso. apply Hno. exists (cols t0). apply Forall_forall.
  intros t Ht. apply Nat.eqb_eq.
  rewrite forallb_forall in Hcols. apply Hcols. exact Ht.
Qed.

Lemma cat_two_widths (ts : list Matrix) (m1 m2 : Matrix) :
  In m1 ts -> In m2 ts -> cols m1 <> cols m2 ->
  cat ts = Raise RuntimeError.
Proof.
  intros H1 H2 Hne. apply cat_not_uniform. intros [w Hall].
  rewrite Forall_forall in Hall. apply Hne.
  rewrite (Hall m1 H1), (Hall m2 H2). reflexivity.
Qed.

(** X9.  The keys of a report, in the order they are printed: the three
    base metrics, followed by the three entropy statistics exactly when
    some mask was collected. *)
Theorem report_keys (st : State) (report : Report) :
  finalize st = Ok report ->
  Dict.keys report
  = ["ssim"%string; "psnr"%string; "nmse"%string]
    ++ match all_prob_masks st with
       | [] => []
       | _ :: _ =>
           ["cond_ent_ind"%string; "marg_ent_ind"%string; "mi_ind"%string]
       end.
Proof.
  intros Hfin.
  destruct (base_report st) as [base | e] eqn:Hbase;
    [ | rewrite (finalize_base_raise _ _ Hbase) in Hfin; discriminate].
  pose proof (base_report_ok _ _ Hbase) as Hrep.
  destruct (all_prob_masks st) as [ | m0 ms] eqn:Hmasks.
  - rewrite (finalize_without_masks _ Hmasks), Hbase in Hfin.
    injection Hfin as <-. rewrite Hrep. reflexivity.
  - destruct (cat (all_prob_masks st)) as [pm | e] eqn:Hcat.
    + rewrite (finalize_with_masks st base pm Hbase) in Hfin;
        [ | rewrite Hmasks; discriminate | exact Hcat].
      injection Hfin as <-. rewrite Hrep. reflexivity.
    + rewrite (finalize_masks_raise st base e Hbase Hcat) in Hfin;
        [discriminate | rewrite Hmasks; discriminate].
Qed.

Lemma report_keys_witness :
  exists report,
    finalize (Examples.state_with_masks [Examples.three_masks]) = Ok report /\
    Dict.keys report
    = ["ssim"; "psnr"; "nmse"; "cond_ent_ind"; "marg_ent_ind"; "mi_ind"]%string.
Proof.
  destruct (finalize_succeeds
              (Examples.state_with_masks [Examples.three_masks]))
    as [report Hreport];
    [discriminate | discriminate | reflexivity | right; reflexivity | ].
  exists report. split; [exact Hreport | ].
  exact (report_keys _ report Hreport).
Defined.

(** X10.  Masks of different lengths are collected without complaint,
    but their concatenation fails at the end: the run raises
    [RuntimeError] and prints nothing, although the three base metrics
    had been computed. *)
Theorem uneven_masks_no_report (st : State) (base : Report) (m1 m2 : Matrix) :
  base_report st = Ok base ->
  In m1 (all_prob_masks st) ->
  In m2 (all_prob_masks st) ->
  cols m1 <> cols m2 ->
  finalize st = Raise RuntimeError.
Proof.
  intros Hbase H1 H2 Hne.
  apply (finalize_masks_raise st base RuntimeError Hbase).
  - exact (cat_two_widths _ m1 m2 H1 H2 Hne).
  - intros Hnil. rewrite Hnil in H1. contradiction.
Qed.

Lemma uneven_masks_no_report_witness :
  finalize (Examples.state_with_masks
              [mkMatrix 1 4 [Finite 1; Finite 1; Finite 0; Finite 0];
               mkMatrix 1 2 [Finite 1; Finite 1]])
  = Raise RuntimeError.
Proof.
  assert (Hbase : exists base,
             base_report
               (Examples.state_with_masks
                  [mkMatrix 1 4 [Finite 1; Finite 1; Finite 0; Finite 0];
                   mkMatrix 1 2 [Finite 1; Finite 1]]) = Ok base)
    by (eexists; reflexivity).
  destruct Hbase as [base Hbase].
  refine (uneven_masks_no_report _ base
            (mkMatrix 1 4 [Finite 1; Finite 1; Finite 0; Finite 0])
            (mkMatrix 1 2 [Finite 1; Finite 1]) Hbase
            (or_introl eq_refl) (or_intror (or_introl eq_refl)) _).
  cbn. lia.
Defined.

End ReportFacts.

Section EvaluateFacts.

Variables Image Kspace : Type.
Variable psnr : Image -> Image -> scalar -> scalar.
Variable nmse : Image -> Image -> scalar.
Variable ssim_loss : list Image -> list Image -> list scalar -> Tensor4.
Variables val_dataloader train_dataloader : list (Batch Image Kspace).

Local Abbreviation Batch := (Batch Image Kspace).
Local Abbreviation Model := (Model Image Kspace).
Local Abbreviation run_steps' := (run_steps psnr nmse ssim_loss).
Local Abbreviation evaluate' :=
  (evaluate psnr nmse ssim_loss val_dataloader train_dataloader).
Local Abbreviation seen args :=
  (processed (num_batches args) 0
     (data_loader val_dataloader train_dataloader args)).
Local Abbreviation samples model args :=
  (flat_map (fun b => zip3 (target b) (output_of model b) (max_value b))
     (seen args)).
Local Abbreviation ssims model args :=
  (map (fun b => batch_ssim ssim_loss b (output_of model b)) (seen args)).

(** X11.  When the loop has gone through without collecting a mask, the
    outcome is decided by what was collected: without any image sample
    the run raises [ValueError]; with samples it prints the three base
    metrics if the SSIM tensors of all batches have one width, and
    raises [RuntimeError] if they do not. *)
Theorem policy_free_outcome (model : Model) (args : Args) (st : State) :
  eval_loop psnr nmse ssim_loss model (num_batches args) 0
    (data_loader val_dataloader train_dataloader args) init_state = Ok st ->
  all_prob_masks st = [] ->
  evaluate' model args = finalize st /\
  (samples model args = [] -> finalize st = Raise ValueError) /\
  (samples model args <> [] ->
   (exists w, Forall (fun t => cols t = w) (ssims model args)) ->
   exists report,
     finalize st = Ok report /\
     Dict.keys report = ["ssim"; "psnr"; "nmse"]%string) /\
  (samples model args <> [] ->
   ~ (exists w, Forall (fun t => cols t = w) (ssims model args)) ->
   finalize st = Raise RuntimeError).
Proof.
  intros Hloop Hmasks.
  split; [unfold evaluate; rewrite Hloop; reflexivity | ].
  rewrite eval_loop_processed in Hloop.
  destruct (run_steps_metrics _ _ _ _ _ _ _ _ _ Hloop) as [Hs [Hp Hn]].
  cbn [init_state all_ssims all_psnrs all_nmses app] in Hs, Hp, Hn.
  unfold batch_psnrs in Hp. unfold batch_nmses in Hn.
  rewrite flat_map_map in Hp, Hn.
  rewrite (finalize_without_masks _ Hmasks).
  unfold base_report. rewrite !np_concatenate_column, Hs, Hp, Hn.
  destruct (samples model args) as [ | s0 rest] eqn:Hsamples.
  - split; [reflexivity | ]. split; intros Hne; contradiction.
  - cbn [map bind]. split; [discriminate | ].
    assert (Hseen : ssims model args <> []).
    { destruct (seen args); [discriminate | discriminate]. }
    split.
    + intros _ [w Hall]. rewrite (cat_uniform _ w Hseen Hall). cbn [bind].
      eexists. split; reflexivity.
    + intros _ Hnot. rewrite (cat_not_uniform _ Hnot). reflexivity.
Qed.

(** X12.  A not-a-number among the per-image PSNR or NMSE values, or
    among the entries of a batch's SSIM tensor, is not dropped: the
    reported mean of that metric is not-a-number. *)
Theorem nan_metric_propagates (model : Model) (args : Args) (report : Report) :
  evaluate' model args = Ok report ->
  (In NaN (map (fun '(gt, rec, maxval) => psnr gt rec maxval)
             (samples model args)) ->
   Dict.get "psnr" report = Some NaN) /\
  (In NaN (map (fun '(gt, rec, _) => nmse gt rec) (samples model args)) ->
   Dict.get "nmse" report = Some NaN) /\
  (forall b, In b (seen args) ->
             In NaN (mdata (batch_ssim ssim_loss b (output_of model b))) ->
             Dict.get "ssim" report = Some NaN).
Proof.
  intros Hmain.
  apply evaluate_ok in Hmain. destruct Hmain as [st [Hrun Hfin]].
  destruct (finalize_ok_base _ _ Hfin) as [Hs [Hp Hn]].
  destruct (run_steps_metrics _ _ _ _ _ _ _ _ _ Hrun) as [Hss [Hps Hns]].
  cbn [init_state all_ssims all_psnrs all_nmses app] in Hss, Hps, Hns.
  rewrite Hs, Hp, Hn, Hss, Hps, Hns.
  unfold batch_psnrs, batch_nmses. rewrite !flat_map_map.
  split; [ | split].
  - intros Hin. rewrite (mean_with_nan _ Hin). reflexivity.
  - intros Hin. rewrite (mean_with_nan _ Hin). reflexivity.
  - intros b Hb Hin. rewrite mean_with_nan; [reflexivity | ].
    apply in_concat. exists (mdata (batch_ssim ssim_loss b (output_of model b))).
    split; [ | exact Hin].
    rewrite map_map. apply in_map_iff. exists b. split; [reflexivity | exact Hb].
Qed.

End EvaluateFacts.

(** ** Sums of real numbers and the binary entropy *)

Section RealFacts.

Local Open Scope R_scope.

Lemma Rsum_plus {A : Type} (f g : A -> R) (l : list A) :
  Rsum (map (fun a => f a + g a) l) = Rsum (map f l) + Rsum (map g l).
Proof.
  induction l as [ | a l IH]; cbn [map Rsum fold_right].
  - lra.
  - fold (Rsum (map (fun a => f a + g a) l)). fold (Rsum (map f l)).
    fold (Rsum (map g l)). rewrite IH. lra.
Qed.

Lemma Rsum_scal {A : Type} (c : R) (f : A -> R) (l : list A) :
  Rsum (map (fun a => f a * c) l) = Rsum (map f l) * c.
Proof.
  induction l as [ | a l IH]; cbn [map Rsum fold_right].
  - lra.
  - fold (Rsum (map (fun a => f a * c) l)). fold (Rsum (map f l)).
    rewrite IH. lra.
Qed.

Lemma Rsum_const {A : Type} (c : R) (l : list A) :
  Rsum (map (fun _ => c) l) = INR (length l) * c.
Proof.
  induction l as [ | a l IH].
  - cbn. lra.
  - cbn [map Rsum fold_right]. fold (Rsum (map (fun _ : A => c) l)).
    rewrite IH. cbn [length]. rewrite S_INR. lra.
Qed.

Lemma Rsum_le {A : Type} (f g : A -> R) (l : list A) :
  (forall a, In a l -> f a <= g a) ->
  Rsum (map f l) <= Rsum (map g l).
Proof.
  induction l as [ | a l IH]; intros Hle; cbn [map Rsum fold_right].
  - lra.
  - fold (Rsum (map f l)). fold (Rsum (map g l)).
    pose proof (Hle a (or_introl eq_refl)).
    pose proof (IH (fun b Hb => Hle b (or_intror Hb))). lra.
Qed.

Lemma Rsum_ext {A : Type} (f g : A -> R) (l : list A) :
  (forall a, In a l -> f a = g a) ->
  Rsum (map f l) = Rsum (map g l).
Proof.
  intros Heq. f_equal. apply map_ext_in. exact Heq.
Qed.

Lemma Rsum_zero_all {A : Type} (f : A -> R) (l : list A) :
  (forall a, In a l -> 0 <= f a) ->
  Rsum (map f l) = 0 ->
  forall a, In a l -> f a = 0.
Proof.
  induction l as [ | b l IH]; intros Hpos Hsum a Hin.
  - contradiction.
  - cbn [map Rsum fold_right] in Hsum. fold (Rsum (map f l)) in Hsum.
    pose proof (Hpos b (or_introl eq_refl)) as Hb.
    assert (Hrest : 0 <= Rsum (map f l)).
    { replace 0 with (Rsum (map (fun _ : A => 0) l))
        by (rewrite Rsum_const; lra).
      apply Rsum_le. intros c Hc. apply Hpos. right. exact Hc. }
    destruct Hin as [<- | Hin]; [lra | ].
    apply IH; [ | lra | exact Hin].
    intros c Hc. apply Hpos. right. exact Hc.
Qed.

(** Exchange of the two sums of a double sum. *)
Lemma Rsum_swap {A B : Type} (f : A -> B -> R) (la : list A) (lb : list B) :
  Rsum (map (fun a => Rsum (map (fun b => f a b) lb)) la)
  = Rsum (map (fun b => Rsum (map (fun a => f a b) la)) lb).
Proof.
  induction la as [ | a la IH]; cbn [map Rsum fold_right].
  - fold (Rsum (map (fun _ : B => 0) lb)). rewrite Rsum_const. lra.
  - fold (Rsum (map (fun a0 => Rsum (map (fun b => f a0 b) lb)) la)).
    rewrite IH.
    fold (Rsum (map (fun b => f a b) lb)).
    rewrite <- Rsum_plus. apply Rsum_ext. intros b _.
    cbn [map Rsum fold_right]. reflexivity.
Qed.

Lemma H_zero : H 0 = 0.
Proof.
  unfold H. replace (1 - 0) with 1 by lra. rewrite ln_1. lra.
Qed.

Lemma H_one : H 1 = 0.
Proof.
  unfold H. replace (1 - 1) with 0 by lra. rewrite ln_1. lra.
Qed.

Lemma ln_neg (x : R) : 0 < x <= 1 -> ln x <= 0.
Proof.
  intros Hx. pose proof (ln_le_pred x (proj1 Hx)). lra.
Qed.

Lemma ln2_pos : 0 < ln 2.
Proof. pose proof ln_lt_2. lra. Qed.

Lemma H_nonneg (p : R) : 0 <= p <= 1 -> 0 <= H p.
Proof.
  intros [Hp0 Hp1].
  destruct (Req_dec_T p 0) as [-> | Hn0]; [rewrite H_zero; lra | ].
  destruct (Req_dec_T p 1) as [-> | Hn1]; [rewrite H_one; lra | ].
  unfold H.
  assert (Ha : ln p <= 0) by (apply ln_neg; lra).
  assert (Hb : ln (1 - p) <= 0) by (apply ln_neg; lra).
  assert (Ha' : p * ln p <= 0) by nra.
  assert (Hb' : (1 - p) * ln (1 - p) <= 0) by nra.
  lra.
Qed.

Lemma H_le_ln2_closed (p : R) : 0 <= p <= 1 -> H p <= ln 2.
Proof.
  intros [Hp0 Hp1]. pose proof ln2_pos.
  destruct (Req_dec_T p 0) as [-> | Hn0]; [rewrite H_zero; lra | ].
  destruct (Req_dec_T p 1) as [-> | Hn1]; [rewrite H_one; lra | ].
  apply H_le_ln2. lra.
Qed.

Lemma ln_quotient_le (a b : R) : 0 < a -> 0 < b -> ln a - ln b <= a / b - 1.
Proof.
  intros Ha Hb.
  assert (Hq : 0 < a / b) by (apply Rdiv_lt_0_compat; assumption).
  pose proof (ln_le_pred (a / b) Hq) as Hl.
  unfold Rdiv in Hl at 1. rewrite ln_mult in Hl;
    [ | exact Ha | apply Rinv_0_lt_compat; exact Hb].
  rewrite ln_Rinv in Hl by exact Hb. lra.
Qed.

(** Gibbs' inequality: the entropy of [p] is at most its cross entropy
    against any [m] strictly between 0 and 1, written as a function
    affine in [p]. *)
Lemma H_le_cross (p m : R) :
  0 <= p <= 1 -> 0 < m < 1 ->
  H p <= - ln (1 - m) + p * (ln (1 - m) - ln m).
Proof.
  intros [Hp0 Hp1] [Hm0 Hm1].
  assert (Hlm : ln m <= 0) by (apply ln_neg; lra).
  assert (Hl1m : ln (1 - m) <= 0) by (apply ln_neg; lra).
  destruct (Req_dec_T p 0) as [-> | Hn0]; [rewrite H_zero; lra | ].
  destruct (Req_dec_T p 1) as [-> | Hn1]; [rewrite H_one; lra | ].
  unfold H.
  pose proof (ln_quotient_le m p) as Ha.
  pose proof (ln_quotient_le (1 - m) (1 - p)) as Hb.
  assert (Ha' : p * (ln m - ln p) <= p * (m / p - 1))
    by (apply Rmult_le_compat_l; lra).
  assert (Hb' : (1 - p) * (ln (1 - m) - ln (1 - p))
                <= (1 - p) * ((1 - m) / (1 - p) - 1))
    by (apply Rmult_le_compat_l; lra).
  assert (Hpa : p * (m / p - 1) = m - p) by (field; lra).
  assert (Hpb : (1 - p) * ((1 - m) / (1 - p) - 1) = (1 - m) - (1 - p))
    by (field; lra).
  lra.
Qed.

Lemma Rsum_bounds {A : Type} (f : A -> R) (l : list A) :
  (forall a, In a l -> 0 <= f a <= 1) ->
  0 <= Rsum (map f l) <= INR (length l).
Proof.
  intros Hb. split.
  - replace 0 with (Rsum (map (fun _ : A => 0) l))
      by (rewrite Rsum_const; lra).
    apply Rsum_le. intros a Ha. apply Hb. exact Ha.
  - replace (INR (length l)) with (Rsum (map (fun _ : A => 1) l))
      by (rewrite Rsum_const; lra).
    apply Rsum_le. intros a Ha. apply Hb. exact Ha.
Qed.

(** Jensen's inequality for the binary entropy: the entropies of some
    probabilities sum to at most their number times the entropy of
    their mean. *)
Lemma H_jensen {A : Type} (f : A -> R) (l : list A) :
  l <> [] ->
  (forall a, In a l -> 0 <= f a <= 1) ->
  Rsum (map (fun a => H (f a)) l)
  <= INR (length l) * H (Rsum (map f l) / INR (length l)).
Proof.
  intros Hne Hb.
  assert (HN : 0 < INR (length l)).
  { apply lt_0_INR. destruct l; [contradiction | simpl; lia]. }
  pose proof (Rsum_bounds f l Hb) as [Hs0 Hs1].
  set (N := INR (length l)) in *. set (S := Rsum (map f l)) in *.
  assert (Hm : 0 <= S / N <= 1).
  { split.
    - apply Rmult_le_pos; [exact Hs0 | ]. left. apply Rinv_0_lt_compat. exact HN.
    - apply (Rmult_le_reg_r N); [exact HN | ].
      replace (S / N * N) with S by (field; lra). lra. }
  destruct (Req_dec_T (S / N) 0) as [Hz | Hnz].
  - (* all probabilities are 0 *)
    assert (HS : S = 0).
    { replace S with (S / N * N) by (field; lra). rewrite Hz. lra. }
    assert (Hall : forall a, In a l -> f a = 0).
    { apply Rsum_zero_all; [intros a Ha; apply Hb; exact Ha | exact HS]. }
    rewrite Hz, H_zero.
    rewrite (Rsum_ext (fun a => H (f a)) (fun _ => 0))
      by (intros a Ha; rewrite (Hall a Ha); apply H_zero).
    rewrite Rsum_const. fold N. lra.
  - destruct (Req_dec_T (S / N) 1) as [Ho | Hno].
    + (* all probabilities are 1 *)
      assert (HS : S = N).
      { replace S with (S / N * N) by (field; lra). rewrite Ho. lra. }
      assert (Hall : forall a, In a l -> 1 - f a = 0).
      { apply Rsum_zero_all.
        - intros a Ha. pose proof (Hb a Ha). lra.
        - rewrite (Rsum_ext (fun a => 1 - f a) (fun a => 1 + f a * (-1)))
            by (intros a _; lra).
          rewrite (Rsum_plus (fun _ => 1) (fun a => f a * (-1))).
          rewrite Rsum_const, Rsum_scal. fold N. fold S. lra. }
      rewrite Ho, H_one.
      rewrite (Rsum_ext (fun a => H (f a)) (fun _ => 0)).
      * rewrite Rsum_const. fold N. lra.
      * intros a Ha. pose proof (Hall a Ha) as H1.
        replace (f a) with 1 by lra. apply H_one.
    + set (m := S / N) in *.
      assert (Hm' : 0 < m < 1) by lra.
      apply Rle_trans
        with (Rsum (map (fun a => - ln (1 - m)
                                  + f a * (ln (1 - m) - ln m)) l)).
      * apply Rsum_le. intros a Ha. apply H_le_cross; [apply Hb; exact Ha | exact Hm'].
      * rewrite (Rsum_plus (fun _ => - ln (1 - m))
                   (fun a => f a * (ln (1 - m) - ln m))).
        rewrite Rsum_const, Rsum_scal. fold N. fold S.
        replace S with (m * N) by (unfold m; field; lra).
        unfold H. lra.
Qed.

End RealFacts.

(** ** Bounds on the entropy statistics *)

Section StatisticsBounds.

Local Open Scope R_scope.

Lemma entropy_entry_unit (p : R) :
  0 <= p <= 1 -> entropy_entry (Finite p) = Finite (H p).
Proof.
  intros [Hp0 Hp1].
  destruct (Req_dec_T p 0) as [-> | Hn0];
    [rewrite entropy_entry_zero, H_zero; reflexivity | ].
  destruct (Req_dec_T p 1) as [-> | Hn1];
    [rewrite entropy_entry_one, H_one; reflexivity | ].
  apply entropy_entry_open. lra.
Qed.





Lemma unit_interval_real (x : scalar) :
  unit_interval x -> x = Finite (real_of x) /\ 0 <= real_of x <= 1.
Proof.
  intros [p [-> Hp]]. split; [reflexivity | exact Hp].
Qed.

Section Stack.

Variable pm : Matrix.
Hypothesis rows_pos : (0 < rows pm)%nat.
Hypothesis entries :
  forall n l, (n < rows pm)%nat -> (l < cols pm)%nat ->
              unit_interval (mget pm n l).

Local Abbreviation P n l := (real_of (mget pm n l)).
Local Abbreviation N := (rows pm).
Local Abbreviation L := (cols pm).

(** The marginal probability of line [l], as a real number. *)
Local Abbreviation marginal l :=
  (Rsum (map (fun n => P n l) (seq 0 N)) / INR N).

Lemma seq_not_nil : seq 0 N <> [].
Proof.
  destruct (rows pm) as [ | n] eqn:Hn; [lia | discriminate].
Qed.

Lemma column_mean (l : nat) :
  (l < L)%nat -> mean (mcol pm l) = Finite (marginal l).
Proof.
  intros Hl. unfold mcol.
  rewrite (map_ext_in _ (fun n => Finite (P n l))).
  - rewrite <- (map_map (fun n => P n l) Finite).
    rewrite mean_finite.
    + rewrite length_map, length_seq. reflexivity.
    + pose proof seq_not_nil. destruct (seq 0 N); [contradiction | discriminate].
  - intros n Hn. apply in_seq in Hn.
    apply unit_interval_real. apply entries; lia.
Qed.

Lemma marginal_unit (l : nat) : (l < L)%nat -> 0 <= marginal l <= 1.
Proof.
  intros Hl.
  assert (HN : 0 < INR N) by (apply lt_0_INR; exact rows_pos).
  pose proof (Rsum_bounds (fun n => P n l) (seq 0 N)) as Hb.
  rewrite length_seq in Hb.
  destruct Hb as [Hb0 Hb1].
  { intros n Hn. apply in_seq in Hn.
    apply unit_interval_real. apply entries; lia. }
  split.
  - apply Rmult_le_pos; [exact Hb0 | ]. left. apply Rinv_0_lt_compat. exact HN.
  - apply (Rmult_le_reg_r (INR N)); [exact HN | ].
    replace (marginal l * INR N)
      with (Rsum (map (fun n => P n l) (seq 0 N))) by (field; lra).
    lra.
Qed.

(** [marg_entropy] and [avg_cond_entropy] of [cli_main] as real
    numbers. *)
Lemma marg_entropy_real :
  sum (mrow (entropy (mean_dim0_keepdim pm)) 0)
  = Finite (Rsum (map (fun l => H (marginal l)) (seq 0 L))).
Proof.
  rewrite marg_entropy_eq.
  rewrite (map_ext_in _ (fun l => Finite (H (marginal l)))).
  - rewrite <- (map_map (fun l => H (marginal l)) Finite).
    apply sum_finite.
  - intros l Hl. apply in_seq in Hl.
    rewrite column_mean by lia.
    apply entropy_entry_unit. apply marginal_unit. lia.
Qed.

Lemma row_entropy_real (n : nat) :
  (n < N)%nat ->
  sum (map (fun l => entropy_entry (mget pm n l)) (seq 0 L))
  = Finite (Rsum (map (fun l => H (P n l)) (seq 0 L))).
Proof.
  intros Hn.
  rewrite (map_ext_in _ (fun l => Finite (H (P n l)))).
  - rewrite <- (map_map (fun l => H (P n l)) Finite). apply sum_finite.
  - intros l Hl. apply in_seq in Hl.
    destruct (unit_interval_real _ (entries n l Hn ltac:(lia))) as [Heq Hp].
    rewrite Heq at 1. apply entropy_entry_unit. exact Hp.
Qed.

Lemma cond_entropy_real :
  mean (sum_dim1 (entropy pm))
  = Finite (Rsum (map (fun n => Rsum (map (fun l => H (P n l)) (seq 0 L)))
                    (seq 0 N)) / INR N).
Proof.
  rewrite sum_dim1_entropy.
  rewrite (map_ext_in _
             (fun n => Finite (Rsum (map (fun l => H (P n l)) (seq 0 L))))).
  - rewrite <- (map_map
                  (fun n => Rsum (map (fun l => H (P n l)) (seq 0 L))) Finite).
    rewrite mean_finite.
    + rewrite length_map, length_seq. reflexivity.
    + pose proof seq_not_nil. destruct (seq 0 N); [contradiction | discriminate].
  - intros n Hn. apply in_seq in Hn. apply row_entropy_real. lia.
Qed.

(** The conditional entropy is at most the marginal entropy. *)
Lemma cond_le_marg :
  Rsum (map (fun n => Rsum (map (fun l => H (P n l)) (seq 0 L))) (seq 0 N))
  / INR N
  <= Rsum (map (fun l => H (marginal l)) (seq 0 L)).
Proof.
  assert (HN : 0 < INR N) by (apply lt_0_INR; exact rows_pos).
  rewrite (Rsum_swap (fun n l => H (P n l)) (seq 0 N) (seq 0 L)).
  apply (Rmult_le_reg_r (INR N)); [exact HN | ].
  replace (Rsum (map (fun l => Rsum (map (fun n => H (P n l)) (seq 0 N)))
                   (seq 0 L)) / INR N * INR N)
    with (Rsum (map (fun l => Rsum (map (fun n => H (P n l)) (seq 0 N)))
                  (seq 0 L))) by (field; lra).
  rewrite <- Rsum_scal. apply Rsum_le. intros l Hl. apply in_seq in Hl.
  pose proof (H_jensen (fun n => P n l) (seq 0 N) seq_not_nil) as Hj.
  rewrite length_seq in Hj. rewrite Rmult_comm. apply Hj.
  intros n Hn. apply in_seq in Hn.
  apply unit_interval_real. apply entries; lia.
Qed.

Lemma cond_nonneg :
  0 <= Rsum (map (fun n => Rsum (map (fun l => H (P n l)) (seq 0 L)))
               (seq 0 N)) / INR N.
Proof.
  assert (HN : 0 < INR N) by (apply lt_0_INR; exact rows_pos).
  apply Rmult_le_pos; [ | left; apply Rinv_0_lt_compat; exact HN].
  replace 0 with (Rsum (map (fun _ : nat => 0) (seq 0 N)))
    by (rewrite Rsum_const; lra).
  apply Rsum_le. intros n Hn. apply in_seq in Hn.
  replace 0 with (Rsum (map (fun _ : nat => 0) (seq 0 L)))
    by (rewrite Rsum_const; lra).
  apply Rsum_le. intros l Hl. apply in_seq in Hl.
  apply H_nonneg. apply unit_interval_real. apply entries; lia.
Qed.

Lemma marg_le_lines :
  Rsum (map (fun l => H (marginal l)) (seq 0 L)) <= INR L * ln 2.
Proof.
  replace (INR L * ln 2) with (Rsum (map (fun _ : nat => ln 2) (seq 0 L)))
    by (rewrite Rsum_const, length_seq; reflexivity).
  apply Rsum_le. intros l Hl. apply in_seq in Hl.
  apply H_le_ln2_closed. apply marginal_unit. lia.
Qed.

End Stack.

End StatisticsBounds.

Section StatisticsTheorems.

Local Open Scope R_scope.

Lemma finalize_entropy_values (st : State) (pm : Matrix) (report : Report) :
  all_prob_masks st <> [] ->
  cat (all_prob_masks st) = Ok pm ->
  finalize st = Ok report ->
  Dict.get "marg_ent_ind" report
  = Some (sum (mrow (entropy (mean_dim0_keepdim pm)) 0)) /\
  Dict.get "cond_ent_ind" report = Some (mean (sum_dim1 (entropy pm))) /\
  Dict.get "mi_ind" report
  = Some (sub (sum (mrow (entropy (mean_dim0_keepdim pm)) 0))
              (mean (sum_dim1 (entropy pm)))).
Proof.
  intros Hne Hcat Hfin.
  destruct (base_report st) as [base | e] eqn:Hbase;
    [ | rewrite (finalize_base_raise _ _ Hbase) in Hfin; discriminate].
  rewrite (finalize_with_masks st base pm Hbase Hne Hcat) in Hfin.
  injection Hfin as <-. rewrite (base_report_ok _ _ Hbase).
  repeat split.
Qed.

(** X14.  For masks with entries between 0 and 1 the three statistics
    are finite numbers with
    [0 <= cond_ent_ind <= marg_ent_ind <= L ln 2]; so [mi_ind], their
    difference, is never negative and never above [marg_ent_ind]. *)
Theorem mutual_information_bounds (st : State) (pm : Matrix)
    (report : Report) :
  all_prob_masks st <> [] ->
  cat (all_prob_masks st) = Ok pm ->
  finalize st = Ok report ->
  (0 < rows pm)%nat ->
  (forall n l, (n < rows pm)%nat -> (l < cols pm)%nat ->
               unit_interval (mget pm n l)) ->
  exists marg cond mi : R,
    Dict.get "marg_ent_ind" report = Some (Finite marg) /\
    Dict.get "cond_ent_ind" report = Some (Finite cond) /\
    Dict.get "mi_ind" report = Some (Finite mi) /\
    mi = marg - cond /\
    0 <= cond <= marg /\
    marg <= INR (cols pm) * ln 2 /\
    0 <= mi <= marg.
Proof.
  intros Hne Hcat Hfin Hrows Hentries.
  destruct (finalize_entropy_values st pm report Hne Hcat Hfin)
    as [Hmarg [Hcond Hmi]].
  rewrite (marg_entropy_real pm Hrows Hentries) in Hmarg, Hmi.
  rewrite (cond_entropy_real pm Hrows Hentries) in Hcond, Hmi.
  pose proof (cond_le_marg pm Hrows Hentries) as Hle.
  pose proof (cond_nonneg pm Hrows Hentries) as Hpos.
  pose proof (marg_le_lines pm Hrows Hentries) as Hup.
  eexists. eexists. eexists.
  split; [exact Hmarg | ]. split; [exact Hcond | ].
  split; [exact Hmi | ].
  split; [lra | ]. split; [lra | ]. split; [exact Hup | lra].
Qed.

(** X15.  For deterministic masks, every entry 0 or 1, the conditional
    entropy is exactly 0 and [mi_ind] equals [marg_ent_ind]. *)
Theorem deterministic_masks (st : State) (pm : Matrix) (report : Report) :
  all_prob_masks st <> [] ->
  cat (all_prob_masks st) = Ok pm ->
  finalize st = Ok report ->
  (0 < rows pm)%nat ->
  (forall n l, (n < rows pm)%nat -> (l < cols pm)%nat ->
               mget pm n l = Finite 0 \/ mget pm n l = Finite 1) ->
  Dict.get "cond_ent_ind" report = Some (Finite 0) /\
  exists marg mi : R,
    Dict.get "marg_ent_ind" report = Some (Finite marg) /\
    Dict.get "mi_ind" report = Some (Finite mi) /\
    mi = marg.
Proof.
  intros Hne Hcat Hfin Hrows Hbits.
  assert (Hentries : forall n l, (n < rows pm)%nat -> (l < cols pm)%nat ->
                                 unit_interval (mget pm n l)).
  { intros n l Hn Hl. destruct (Hbits n l Hn Hl) as [-> | ->].
    - exists 0. split; [reflexivity | lra].
    - exists 1. split; [reflexivity | lra]. }
  destruct (finalize_entropy_values st pm report Hne Hcat Hfin)
    as [Hmarg [Hcond Hmi]].
  rewrite (marg_entropy_real pm Hrows Hentries) in Hmarg, Hmi.
  rewrite (cond_entropy_real pm Hrows Hentries) in Hcond, Hmi.
  assert (Hzero :
            Rsum (map (fun n =>
                         Rsum (map (fun l => H (real_of (mget pm n l)))
                                 (seq 0 (cols pm))))
                    (seq 0 (rows pm))) / INR (rows pm) = 0).
  { rewrite (Rsum_ext _ (fun _ => 0)).
    - rewrite Rsum_const. unfold Rdiv. lra.
    - intros n Hn. apply in_seq in Hn.
      rewrite (Rsum_ext _ (fun _ => 0)).
      + rewrite Rsum_const. lra.
      + intros l Hl. apply in_seq in Hl.
        destruct (Hbits n l ltac:(lia) ltac:(lia)) as [-> | ->].
        * apply H_zero.
        * apply H_one. }
  rewrite Hzero in Hcond, Hmi.
  split; [exact Hcond | ].
  eexists. eexists. split; [exact Hmarg | ]. split; [exact Hmi | ]. lra.
Qed.

(** X16.  When all collected mask rows are equal, with entries between 0
    and 1, the conditional entropy equals the marginal entropy and
    [mi_ind] is exactly 0: a policy that ignores its input carries no
    information. *)
Theorem identical_masks (st : State) (pm : Matrix) (report : Report) :
  all_prob_masks st <> [] ->
  cat (all_prob_masks st) = Ok pm ->
  finalize st = Ok report ->
  (0 < rows pm)%nat ->
  (forall l, (l < cols pm)%nat -> unit_interval (mget pm 0 l)) ->
  (forall n l, (n < rows pm)%nat -> (l < cols pm)%nat ->
               mget pm n l = mget pm 0 l) ->
  exists marg cond mi : R,
    Dict.get "marg_ent_ind" report = Some (Finite marg) /\
    Dict.get "cond_ent_ind" report = Some (Finite cond) /\
    Dict.get "mi_ind" report = Some (Finite mi) /\
    cond = marg /\ mi = 0.
Proof.
  intros Hne Hcat Hfin Hrows Hrow0 Hsame.
  assert (Hentries : forall n l, (n < rows pm)%nat -> (l < cols pm)%nat ->
                                 unit_interval (mget pm n l)).
  { intros n l Hn Hl. rewrite (Hsame n l Hn Hl). apply Hrow0. exact Hl. }
  destruct (finalize_entropy_values st pm report Hne Hcat Hfin)
    as [Hmarg [Hcond Hmi]].
  rewrite (marg_entropy_real pm Hrows Hentries) in Hmarg, Hmi.
  rewrite (cond_entropy_real pm Hrows Hentries) in Hcond, Hmi.
  assert (HN : 0 < INR (rows pm)) by (apply lt_0_INR; exact Hrows).
  set (S := Rsum (map (fun l => H (real_of (mget pm 0 l)))
                    (seq 0 (cols pm)))).
  assert (HM :
            Rsum (map (fun l =>
                         H (Rsum (map (fun n => real_of (mget pm n l))
                                    (seq 0 (rows pm))) / INR (rows pm)))
                    (seq 0 (cols pm))) = S).
  { apply Rsum_ext. intros l Hl. apply in_seq in Hl. f_equal.
    rewrite (Rsum_ext _ (fun _ => real_of (mget pm 0 l))).
    - rewrite Rsum_const, length_seq. field. lra.
    - intros n Hn. apply in_seq in Hn. rewrite Hsame by lia. reflexivity. }
  assert (HC :
            Rsum (map (fun n =>
                         Rsum (map (fun l => H (real_of (mget pm n l)))
                                 (seq 0 (cols pm))))
                    (seq 0 (rows pm))) / INR (rows pm) = S).
  { rewrite (Rsum_ext _ (fun _ => S)).
    - rewrite Rsum_const, length_seq. field. lra.
    - intros n Hn. apply in_seq in Hn. apply Rsum_ext.
      intros l Hl. apply in_seq in Hl. rewrite Hsame by lia. reflexivity. }
  rewrite HM in Hmarg, Hmi. rewrite HC in Hcond, Hmi.
  eexists. eexists. eexists.
  split; [exact Hmarg | ]. split; [exact Hcond | ]. split; [exact Hmi | ].
  split; lra.
Qed.

Lemma three_masks_bits :
  forall n l, (n < rows Examples.three_masks)%nat ->
              (l < cols Examples.three_masks)%nat ->
              mget Examples.three_masks n l = Finite 0
              \/ mget Examples.three_masks n l = Finite 1.
Proof.
  intros n l Hn Hl. simpl in Hn, Hl.
  destruct n as [ | [ | [ | n]]]; [ | | | lia];
    (destruct l as [ | [ | [ | [ | l]]]]; [ | | | | lia]);
    first [left; reflexivity | right; reflexivity].
Qed.

Lemma three_masks_entries :
  forall n l, (n < rows Examples.three_masks)%nat ->
              (l < cols Examples.three_masks)%nat ->
              unit_interval (mget Examples.three_masks n l).
Proof.
  intros n l Hn Hl.
  destruct (three_masks_bits n l Hn Hl) as [-> | ->].
  - exists 0. split; [reflexivity | lra].
  - exists 1. split; [reflexivity | lra].
Qed.

Lemma equal_rows_row0 :
  forall l, (l < cols Examples.equal_rows)%nat ->
            unit_interval (mget Examples.equal_rows 0 l).
Proof.
  intros l Hl. simpl in Hl.
  destruct l as [ | [ | l]]; [ | | lia].
  - exists (1 / 2). split; [reflexivity | lra].
  - exists (1 / 4). split; [reflexivity | lra].
Qed.

Lemma equal_rows_same :
  forall n l, (n < rows Examples.equal_rows)%nat ->
              (l < cols Examples.equal_rows)%nat ->
              mget Examples.equal_rows n l = mget Examples.equal_rows 0 l.
Proof.
  intros n l Hn Hl. simpl in Hn, Hl.
  destruct n as [ | [ | n]]; [ | | lia];
    (destruct l as [ | [ | l]]; [ | | lia]); reflexivity.
Qed.

Lemma finalize_state_with_masks (pm : Matrix) :
  exists report, finalize (Examples.state_with_masks [pm]) = Ok report.
Proof.
  apply finalize_succeeds.
  - discriminate.
  - discriminate.
  - reflexivity.
  - right. cbn. rewrite Nat.eqb_refl. reflexivity.
Qed.

Lemma mutual_information_bounds_witness :
  exists report,
    finalize (Examples.state_with_masks [Examples.three_masks]) = Ok report /\
    exists marg cond mi : R,
      Dict.get "marg_ent_ind" report = Some (Finite marg) /\
      Dict.get "cond_ent_ind" report = Some (Finite cond) /\
      Dict.get "mi_ind" report = Some (Finite mi) /\
      mi = marg - cond /\
      0 <= cond <= marg /\
      marg <= INR 4 * ln 2 /\
      0 <= mi <= marg.
Proof.
  destruct (finalize_state_with_masks Examples.three_masks)
    as [report Hreport].
  exists report. split; [exact Hreport | ].
  refine (mutual_information_bounds
            (Examples.state_with_masks [Examples.three_masks])
            Examples.three_masks report
            _ eq_refl Hreport _ three_masks_entries).
  - discriminate.
  - cbn. lia.
Defined.

Lemma deterministic_masks_witness :
  exists report,
    finalize (Examples.state_with_masks [Examples.three_masks]) = Ok report /\
    Dict.get "cond_ent_ind" report = Some (Finite 0).
Proof.
  destruct (finalize_state_with_masks Examples.three_masks)
    as [report Hreport].
  exists report. split; [exact Hreport | ].
  refine (proj1 (deterministic_masks
                   (Examples.state_with_masks [Examples.three_masks])
                   Examples.three_masks report
                   _ eq_refl Hreport _ three_masks_bits)).
  - discriminate.
  - cbn. lia.
Defined.

Lemma identical_masks_witness :
  exists report,
    finalize (Examples.state_with_masks [Examples.equal_rows]) = Ok report /\
    exists marg cond mi : R,
      Dict.get "marg_ent_ind" report = Some (Finite marg) /\
      Dict.get "cond_ent_ind" report = Some (Finite cond) /\
      Dict.get "mi_ind" report = Some (Finite mi) /\
      cond = marg /\ mi = 0.
Proof.
  destruct (finalize_state_with_masks Examples.equal_rows)
    as [report Hreport].
  exists report. split; [exact Hreport | ].
  refine (identical_masks
            (Examples.state_with_masks [Examples.equal_rows])
            Examples.equal_rows report
            _ eq_refl Hreport _ equal_rows_row0 equal_rows_same).
  - discriminate.
  - cbn. lia.
Defined.

End StatisticsTheorems.

(** ** The two averaging orders of the SSIM *)

Section UniformBatches.

Local Open Scope R_scope.

Lemma finite_list (d : list scalar) :
  Forall is_finite d -> d = map Finite (map real_of d).
Proof.
  induction 1 as [ | x d Hx _ IH]; cbn [map].
  - reflexivity.
  - rewrite <- IH. destruct x; try contradiction. reflexivity.
Qed.

Lemma Rsum_app (l1 l2 : list R) : Rsum (l1 ++ l2) = Rsum l1 + Rsum l2.
Proof.
  induction l1 as [ | x l1 IH]; cbn [app Rsum fold_right].
  - fold (Rsum l2). lra.
  - fold (Rsum (l1 ++ l2)). fold (Rsum l1). rewrite IH. lra.
Qed.

Lemma mean_all_finite (k : nat) (m : Matrix) :
  (0 < k)%nat ->
  length (mdata m) = k ->
  Forall is_finite (mdata m) ->
  mean_all m = Finite (Rsum (map real_of (mdata m)) / INR k).
Proof.
  intros Hk Hlen Hfin. unfold mean_all.
  rewrite (finite_list _ Hfin) at 1. rewrite mean_finite.
  - rewrite length_map, Hlen. reflexivity.
  - destruct (mdata m); [simpl in Hlen; lia | discriminate].
Qed.

Lemma uniform_concat (k : nat) (ms : list Matrix) :
  (0 < k)%nat ->
  Forall (fun m => length (mdata m) = k /\ Forall is_finite (mdata m)) ms ->
  concat (map mdata ms)
  = map Finite (concat (map (fun m => map real_of (mdata m)) ms)) /\
  length (concat (map (fun m => map real_of (mdata m)) ms))
  = (length ms * k)%nat /\
  Rsum (concat (map (fun m => map real_of (mdata m)) ms))
  = Rsum (map (fun m => Rsum (map real_of (mdata m))) ms) /\
  map mean_all ms
  = map Finite
      (map (fun m => Rsum (map real_of (mdata m)) / INR k) ms).
Proof.
  intros Hk.
  induction 1 as [ | m ms [Hlen Hfin] _ [IH1 [IH2 [IH3 IH4]]]].
  - repeat split.
  - cbn [map concat length]. split; [ | split; [ | split]].
    + rewrite IH1, map_app, <- (finite_list _ Hfin). reflexivity.
    + rewrite length_app, length_map, Hlen, IH2. reflexivity.
    + rewrite Rsum_app, IH3. reflexivity.
    + rewrite IH4, (mean_all_finite k m Hk Hlen Hfin). reflexivity.
Qed.

(** X17.  When the SSIM tensors of all batches hold the same number of
    finite entries (batches of one size), the reported SSIM, the flat
    mean, is also the mean of the per-batch means. *)
Theorem uniform_batches_ssim (st : State) (report : Report) (k : nat) :
  finalize st = Ok report ->
  (0 < k)%nat ->
  Forall (fun m => length (mdata m) = k /\ Forall is_finite (mdata m))
         (all_ssims st) ->
  exists s : R,
    Dict.get "ssim" report = Some (Finite s) /\
    mean_of_batch_means (all_ssims st) = Finite s.
Proof.
  intros Hfin Hk Hall.
  destruct (finalize_ok_base _ _ Hfin) as [Hs _].
  destruct (finalize_ok_cat _ _ Hfin) as [ssim_tensor Hcat].
  assert (Hne : all_ssims st <> []).
  { intros Hnil. rewrite Hnil in Hcat. discriminate. }
  destruct (uniform_concat k (all_ssims st) Hk Hall) as [Hc [Hl [Hr Hm]]].
  set (ms := all_ssims st) in *.
  assert (HB : 0 < INR (length ms)).
  { apply lt_0_INR. destruct ms; [contradiction | simpl; lia]. }
  assert (HK : 0 < INR k) by (apply lt_0_INR; exact Hk).
  exists (Rsum (map (fun m => Rsum (map real_of (mdata m))) ms)
          / INR (length ms * k)).
  split.
  - rewrite Hs, Hc, mean_finite.
    + rewrite Hl, Hr. reflexivity.
    + intros Hnil. rewrite Hnil in Hl. simpl in Hl.
      destruct ms; [contradiction | simpl in Hl; lia].
  - unfold mean_of_batch_means. rewrite Hm, mean_finite.
    + rewrite length_map. f_equal.
      rewrite (Rsum_ext
                 (fun m => Rsum (map real_of (mdata m)) / INR k)
                 (fun m => Rsum (map real_of (mdata m)) * / INR k))
        by (intros m _; reflexivity).
      rewrite (Rsum_scal (/ INR k)
                 (fun m => Rsum (map real_of (mdata m))) ms).
      rewrite mult_INR. field. lra.
    + destruct ms; [contradiction | discriminate].
Qed.

Lemma uniform_batches_ssim_witness :
  exists report s,
    finalize (mkState []
                [mkMatrix 2 1 [Finite 1; Finite 1];
                 mkMatrix 2 1 [Finite 0; Finite 1]]
                [Finite 30] [Finite 0]) = Ok report /\
    Dict.get "ssim" report = Some (Finite s) /\
    mean_of_batch_means
      [mkMatrix 2 1 [Finite 1; Finite 1]; mkMatrix 2 1 [Finite 0; Finite 1]]
    = Finite s.
Proof.
  assert (Hrun : exists report,
             finalize (mkState []
                         [mkMatrix 2 1 [Finite 1; Finite 1];
                          mkMatrix 2 1 [Finite 0; Finite 1]]
                         [Finite 30] [Finite 0]) = Ok report).
  { apply finalize_succeeds.
    - discriminate.
    - discriminate.
    - reflexivity.
    - left. reflexivity. }
  destruct Hrun as [report Hreport].
  destruct (uniform_batches_ssim _ report 2 Hreport) as [s Hs].
  - lia.
  - repeat constructor.
  - exists report, s. split; [exact Hreport | exact Hs].
Defined.

End UniformBatches.

(** ** Loading, when the checkpoint cannot be read *)

Section LoadFacts.

Variables Image Kspace HyperParameters StateDict : Type.
Variable psnr : Image -> Image -> scalar -> scalar.
Variable nmse : Image -> Image -> scalar.
Variable ssim_loss : list Image -> list Image -> list scalar -> Tensor4.
Variable torch_load : string -> result (Checkpoint HyperParameters StateDict).
Variable construct :
  module_class -> HyperParameters -> result (Model Image Kspace).
Variable load_state_dict :
  Model Image Kspace -> StateDict -> result (Model Image Kspace).
Variables val_dataloader train_dataloader : list (Batch Image Kspace).

Local Abbreviation cli_main' :=
  (cli_main psnr nmse ssim_loss torch_load construct load_state_dict
     val_dataloader train_dataloader).

(** X18.  When [torch.load] raises on the checkpoint file, no module is
    ever built and nothing is evaluated: [cli_main] ends with that very
    error, after one call of [load_model] if the error is not a
    [RuntimeError], and after two calls if it is. *)
Theorem unreadable_checkpoint (args : Args) (e : exn) :
  torch_load (load_checkpoint args) = Raise e ->
  snd (cli_main' args) = Raise e /\
  fst (cli_main' args)
  = match e with
    | RuntimeError => [AdaptiveVarNetModule; VarNetModule]
    | _ => [AdaptiveVarNetModule]
    end /\
  (forall cls,
      load_model torch_load construct load_state_dict cls
        (load_checkpoint args) = Raise e).
Proof.
  intros Hload.
  assert (Hany : forall cls,
             load_model torch_load construct load_state_dict cls
               (load_checkpoint args) = Raise e).
  { intros cls. unfold load_model. rewrite Hload. reflexivity. }
  unfold cli_main, load_with_fallback. rewrite !Hany.
  destruct e; cbn [fst snd bind]; repeat split; exact Hany.
Qed.

End LoadFacts.

(** ** More concrete runs *)

Section MoreConcreteRuns.

Import Examples.
Local Open Scope R_scope.

Local Abbreviation pixel_loop :=
  (eval_loop pixel_psnr pixel_nmse pixel_ssim_loss).
Local Abbreviation pixel_evaluate :=
  (evaluate pixel_psnr pixel_nmse pixel_ssim_loss).

Lemma unreadable_checkpoint_witness :
  snd (cli_main pixel_psnr pixel_nmse pixel_ssim_loss torch_load_unreadable
         (construct_from policy_model plain_model) load_state_dict_checked
         [batch_of_2] [] args_val)
  = Raise RuntimeError.
Proof.
  exact (proj1 (unreadable_checkpoint R (list R) unit module_class
                  pixel_psnr pixel_nmse pixel_ssim_loss torch_load_unreadable
                  (construct_from policy_model plain_model)
                  load_state_dict_checked [batch_of_2] [] args_val
                  RuntimeError eq_refl)).
Defined.

Lemma short_max_run :
  exists st,
    pixel_loop plain_model None 0 [batch_of_2; batch_short_max] init_state
    = Ok st.
Proof.
  eexists. cbv -[Rplus Rminus Rmult Rdiv Ropp Rinv INR IZR]. reflexivity.
Qed.

Lemma sample_counts_witness :
  exists st,
    pixel_loop plain_model None 0 [batch_of_2; batch_short_max] init_state
    = Ok st /\
    length (all_ssims st) = 2%nat /\
    length (all_psnrs st) = length (all_nmses st) /\
    length (all_psnrs st) = 4%nat.
Proof.
  destruct short_max_run as [st Hrun].
  exists st. split; [exact Hrun | ].
  exact (sample_counts R (list R) pixel_psnr pixel_nmse pixel_ssim_loss
           [batch_of_2; batch_short_max] [] plain_model args_val st Hrun).
Defined.

Lemma mask_batches_loop :
  exists st,
    pixel_loop policy_model None 0 mask_batches init_state = Ok st.
Proof.
  destruct mask_batches_run as [st [Hrun _]].
  exists st. rewrite eval_loop_processed. exact Hrun.
Qed.

Lemma collected_masks_invariant_witness :
  exists st,
    pixel_loop policy_model None 0 mask_batches init_state = Ok st /\
    length (all_prob_masks st) = 3%nat /\
    Forall (fun m =>
              wf m /\ (0 < rows m)%nat /\
              isclose (sum (mrow m 0)) (Finite 2) = true)
           (all_prob_masks st).
Proof.
  destruct mask_batches_loop as [st Hrun].
  exists st. split; [exact Hrun | ].
  exact (collected_masks_invariant R (list R) pixel_psnr pixel_nmse
           pixel_ssim_loss mask_batches [] policy_model args_val st Hrun).
Defined.

Lemma empty_mask_list_fatal_witness :
  is_ok (pixel_evaluate [batch_of_2] [] no_masks_model args_val) = false.
Proof.
  exact (proj2 (empty_mask_list_fatal R (list R) pixel_psnr pixel_nmse
                  pixel_ssim_loss [batch_of_2] [] no_masks_model args_val
                  batch_of_2 eq_refl)
           (or_introl eq_refl)).
Defined.

Lemma mask_index_error_witness :
  is_ok (pixel_evaluate [batch_of_2] [] empty_dim_model args_val) = false /\
  is_ok (pixel_evaluate [batch_of_2] [] no_rows_model args_val) = false.
Proof.
  split.
  - exact (proj2 (mask_index_error R (list R) pixel_psnr pixel_nmse
                    pixel_ssim_loss [batch_of_2] [] empty_dim_model args_val
                    batch_of_2 (mkTensor5 1 0 1 4 1 []) eq_refl
                    (or_intror (or_introl eq_refl)))
             (or_introl eq_refl)).
  - exact (proj2 (mask_index_error R (list R) pixel_psnr pixel_nmse
                    pixel_ssim_loss [batch_of_2] [] no_rows_model args_val
                    batch_of_2 (mkTensor5 0 1 1 4 1 []) eq_refl
                    (or_introl eq_refl))
             (or_introl eq_refl)).
Defined.

Lemma nan_mask_fails_budget_check_witness :
  is_ok (pixel_evaluate [batch_of_2] [] nan_mask_model args_val) = false.
Proof.
  refine (proj2 (nan_mask_fails_budget_check R (list R) pixel_psnr pixel_nmse
                   pixel_ssim_loss [batch_of_2] [] nan_mask_model args_val
                   batch_of_2 (mkTensor5 1 1 1 2 1 [NaN; Finite 2]) _ 0
                   eq_refl eq_refl _ _ eq_refl)
            (or_introl eq_refl)).
  - cbn. lia.
  - cbn. lia.
Defined.

Lemma plain_loop_through
    (loss : list R -> list R -> list scalar -> Tensor4)
    (batches : list PixelBatch) :
  exists st,
    eval_loop pixel_psnr pixel_nmse loss plain_model None 0 batches
      init_state = Ok st /\
    all_prob_masks st = [].
Proof.
  eexists. split.
  - rewrite eval_loop_processed. apply run_steps_without_masks.
    intros b _. reflexivity.
  - reflexivity.
Qed.

Lemma policy_free_outcome_witness :
  (exists st report,
      pixel_loop plain_model None 0 [batch_of_2; batch_of_3] init_state
      = Ok st /\
      finalize st = Ok report /\
      Dict.keys report = ["ssim"; "psnr"; "nmse"]%string) /\
  (exists st,
      eval_loop pixel_psnr pixel_nmse wide_ssim_loss plain_model None 0
        [batch_of_2; batch_of_3] init_state = Ok st /\
      finalize st = Raise RuntimeError) /\
  (exists st,
      pixel_loop plain_model None 0 [] init_state = Ok st /\
      finalize st = Raise ValueError).
Proof.
  split; [ | split].
  - destruct (plain_loop_through pixel_ssim_loss [batch_of_2; batch_of_3])
      as [st [Hloop Hmasks]].
    destruct (proj1 (proj2 (proj2
                (policy_free_outcome R (list R) pixel_psnr pixel_nmse
                   pixel_ssim_loss [batch_of_2; batch_of_3] [] plain_model
                   args_val st Hloop Hmasks))))
      as [report Hreport].
    + discriminate.
    + exists 1%nat. repeat constructor.
    + exists st, report. split; [exact Hloop | exact Hreport].
  - destruct (plain_loop_through wide_ssim_loss [batch_of_2; batch_of_3])
      as [st [Hloop Hmasks]].
    exists st. split; [exact Hloop | ].
    refine (proj2 (proj2 (proj2
              (policy_free_outcome R (list R) pixel_psnr pixel_nmse
                 wide_ssim_loss [batch_of_2; batch_of_3] [] plain_model
                 args_val st Hloop Hmasks))) _ _).
    + discriminate.
    + intros [w Hall].
      pose proof (Forall_inv Hall) as Hfirst.
      pose proof (Forall_inv (Forall_inv_tail Hall)) as Hsecond.
      cbn in Hfirst, Hsecond. lia.
  - destruct (plain_loop_through pixel_ssim_loss []) as [st [Hloop Hmasks]].
    exists st. split; [exact Hloop | ].
    exact (proj1 (proj2
             (policy_free_outcome R (list R) pixel_psnr pixel_nmse
                pixel_ssim_loss [] [] plain_model args_val st Hloop Hmasks))
             eq_refl).
Defined.

Lemma nan_max_value_run :
  exists report,
    pixel_evaluate [batch_nan_max] [] plain_model args_val = Ok report.
Proof.
  eexists. cbv -[Rplus Rminus Rmult Rdiv Ropp Rinv INR IZR]. reflexivity.
Qed.

Lemma nan_metric_propagates_witness :
  exists report,
    pixel_evaluate [batch_nan_max] [] plain_model args_val = Ok report /\
    Dict.get "psnr" report = Some NaN.
Proof.
  destruct nan_max_value_run as [report Hreport].
  exists report. split; [exact Hreport | ].
  exact (proj1
           (nan_metric_propagates R (list R) pixel_psnr pixel_nmse
              pixel_ssim_loss [batch_nan_max] [] plain_model args_val report
              Hreport)
           (or_intror (or_introl eq_refl))).
Defined.

End MoreConcreteRuns.
